(** * Genshi markup streams: transformations and serialization

    A shallow embedding of [genshi/filters/transform.py] and
    [genshi/output.py].  Streams are Python generators; a generator is
    modelled by the list of the items it yields together with the way its
    body ended. *)

From Stdlib Require Import Ascii String.
From stdpp Require Import gmap strings list.

(** ** Event model *)

(** The stream event kinds of [genshi.core], plus [EMPTY], which
    [EmptyTagFilter] declares. *)
Inductive Kind : Type :=
| START | END | TEXT | START_NS | END_NS | START_CDATA | END_CDATA
| PI | COMMENT | DOCTYPE | EMPTY.

#[global] Instance Kind_eq_dec : EqDecision Kind.
Proof. solve_decision. Defined.

(** A position is the triple (filename, lineno, offset), or Python's [None]
    (the end marker that [WhitespaceFilter] chains to its input has none). *)
Definition Pos : Type := option (option string * Z * Z).

(** [QName]: an optional namespace URI and a local name. *)
Record QName : Type := mkQName { namespace : option string; localname : string }.

#[global] Instance QName_eq_dec : EqDecision QName.
Proof. solve_decision. Defined.

(** Text is either a plain string or literal markup (class [Markup]). *)
Inductive Text : Type :=
| Str (s : string)
| Markup (s : string).

#[global] Instance Text_eq_dec : EqDecision Text.
Proof. solve_decision. Defined.

(** An event is the triple (kind, data, pos); the shape of [data] is fixed
    by the kind, so an event is a tagged union and [kind] reads the tag.
    Names are [QName]s in parsed streams and plain strings once the
    namespaces have been flattened or stripped, hence the parameter [N]. *)
Inductive Event (N : Type) : Type :=
| Start (tag : N) (attrs : list (N * string)) (pos : Pos)
| End (tag : N) (pos : Pos)
| TextEv (text : Text) (pos : Pos)
| StartNs (prefix uri : string) (pos : Pos)
| EndNs (prefix : string) (pos : Pos)
| StartCdata (pos : Pos)
| EndCdata (pos : Pos)
| Pi (target data : string) (pos : Pos)
| Comment (text : string) (pos : Pos)
| Doctype (name pubid sysid : option string) (pos : Pos)
| Empty (tag : N) (attrs : list (N * string)) (pos : Pos).

Arguments Start {N} tag attrs pos.
Arguments End {N} tag pos.
Arguments TextEv {N} text pos.
Arguments StartNs {N} prefix uri pos.
Arguments EndNs {N} prefix pos.
Arguments StartCdata {N} pos.
Arguments EndCdata {N} pos.
Arguments Pi {N} target data pos.
Arguments Comment {N} text pos.
Arguments Doctype {N} name pubid sysid pos.
Arguments Empty {N} tag attrs pos.

#[global] Instance Event_eq_dec {N} `{EqDecision N} : EqDecision (Event N).
Proof. solve_decision. Defined.

(** [event[0]] *)
Definition kind {N} (ev : Event N) : Kind :=
  match ev with
  | Start _ _ _ => START
  | End _ _ => END
  | TextEv _ _ => TEXT
  | StartNs _ _ _ => START_NS
  | EndNs _ _ => END_NS
  | StartCdata _ => START_CDATA
  | EndCdata _ => END_CDATA
  | Pi _ _ _ => PI
  | Comment _ _ => COMMENT
  | Doctype _ _ _ _ => DOCTYPE
  | Empty _ _ _ => EMPTY
  end.

Definition is_kind {N} (k : Kind) (ev : Event N) : bool := bool_decide (kind ev = k).

(** ** Generators *)

(** How a generator body ends: it returns, or an exception of the named
    class leaves it. *)
Inductive Outcome : Type :=
| Returned
| Raised (exc : string).

#[global] Instance Outcome_eq_dec : EqDecision Outcome.
Proof. solve_decision. Defined.

Definition StopIteration : string := "StopIteration".
Definition IndexError : string := "IndexError".

(** The items yielded, in order, and the end of the body. *)
Definition Gen (A : Type) : Type := list A * Outcome.

Definition yield {A} (x : A) (g : Gen A) : Gen A := (x :: g.1, g.2).
Definition yield_all {A} (xs : list A) (g : Gen A) : Gen A := (xs ++ g.1, g.2).

(** What the consumer of a generator sees when it asks for the item after
    the last one: under Python 2 a [StopIteration] that leaves the body ends
    the iteration exactly as a return does; any other exception reaches the
    consumer. *)
Definition seen_by_consumer (o : Outcome) : option string :=
  match o with
  | Returned => None
  | Raised e => if String.eqb e StopIteration then None else Some e
  end.

(** A stage applied to a generator: the stage consumes the items the
    upstream yields, one at a time.  An exception of its own that leaves the
    stage at one of these items does so before the upstream is asked for
    more; otherwise an upstream exception other than [StopIteration] comes
    out of the request for the item after the last and passes through the
    stage's frame to its own consumer. *)
Definition feed {A B} (stage : list A → Gen B) (up : Gen A) : Gen B :=
  match seen_by_consumer up.2 with
  | None => stage up.1
  | Some e =>
      let down := stage up.1 in
      match seen_by_consumer down.2 with
      | Some own => (down.1, Raised own)
      | None => (down.1, Raised e)
      end
  end.

(** ** Marks ([transform.py]) *)

Inductive TransformMark : Type := ENTER | INSIDE | OUTSIDE | EXIT.

#[global] Instance TransformMark_eq_dec : EqDecision TransformMark.
Proof. solve_decision. Defined.

(** A mark is one of the four [TransformMark]s or Python's [None]. *)
Definition Mark : Type := option TransformMark.

Definition MarkedEvent : Type := Mark * Event QName.

(** Truth value of a mark: the four marks are non-empty strings. *)
Definition truthy (mark : Mark) : bool :=
  match mark with Some _ => true | None => false end.

(** [Transformer._mark] and [Transformer._unmark]. *)
Definition _mark (stream : list (Event QName)) : list MarkedEvent :=
  map (λ event, (None, event)) stream.

Definition _unmark (stream : list MarkedEvent) : list (Event QName) :=
  map snd stream.

(** ** Selection *)

(** What [test(event, ...)] answers: [True], a false value, or another true
    value, which the selection stage emits in place of the event. *)
Inductive TestResult : Type :=
| RTrue
| RFalse
| RValue (result : Event QName).

(** [Path.test()] returns a closure with internal state; the path engine is
    outside this module, so a selector is any state type with an initial
    state and a transition for [test(event, {}, {}, updateonly)]. *)
Record Selector : Type := mkSelector {
  sel_state : Type;
  sel_init : sel_state;
  sel_test : sel_state → Event QName → bool → sel_state * TestResult
}.

(** [transforms] holds callables from a marked stream to a marked stream. *)
Definition Stage : Type := list MarkedEvent → Gen MarkedEvent.

Section Select.
Context (path : Selector).

Local Abbreviation test := (sel_test path).

(** One pass through a loop body of [SelectTransformation.__call__].  The
    outer [for] and the inner [while depth > 0] pull from one iterator and
    each pass yields one marked event; [depth = 0] is the [for] loop and
    [depth > 0] the [while] loop.  The mark read from the stream is bound
    and never used. *)
Definition select_step (c : sel_state path * nat) (item : MarkedEvent)
    : (sel_state path * nat) * MarkedEvent :=
  let '(st, depth) := c in
  let '(mark, event) := item in
  match depth with
  | O =>
      let '(st', result) := test st event false in
      match result with
      | RTrue =>
          if is_kind START event
          then ((st', 1), (Some ENTER, event))
          else ((st', 0), (Some OUTSIDE, event))
      | RValue result => ((st', 0), (Some ENTER, result))
      | RFalse => ((st', 0), (None, event))
      end
  | S d =>
      let depth' :=
        if is_kind START event then S depth
        else if is_kind END event then d
        else depth in
      let st' := (test st event true).1 in
      ((st', depth'),
       match depth' with
       | O => (Some EXIT, event)
       | S _ => (Some INSIDE, event)
       end)
  end.

(** The stream ending in the [for] ends the generator; [stream.next()] on
    an exhausted stream raises [StopIteration] inside the body. *)
Fixpoint select_loop (c : sel_state path * nat) (stream : list MarkedEvent)
    : Gen MarkedEvent :=
  match stream with
  | [] => ([], match c.2 with O => Returned | S _ => Raised StopIteration end)
  | item :: rest =>
      let '(c', out) := select_step c item in
      yield out (select_loop c' rest)
  end.

(** Selector state and depth once the stream has been consumed. *)
Definition select_run (c : sel_state path * nat) (stream : list MarkedEvent)
    : sel_state path * nat :=
  foldl (λ c item, (select_step c item).1) c stream.

Definition SelectTransformation : Stage :=
  select_loop (sel_init path, 0).

(** The selector after [test(event, {}, {}, updateonly=True)] on each event. *)
Definition update_only (st : sel_state path) (events : list (Event QName))
    : sel_state path :=
  foldl (λ st event, (test st event true).1) st events.
End Select.

(** ** Markers that keep or drop events *)

(** [InvertTransformation.__call__] *)
Definition InvertTransformation : Stage := λ stream,
  (map (λ '(mark, event), if truthy mark then (None, event) else (Some OUTSIDE, event))
       stream, Returned).

(** [EmptyTransformation.__call__]: [mark not in (INSIDE, OUTSIDE)] *)
Definition EmptyTransformation : Stage := λ stream,
  (filter (λ item, item.1 ≠ Some INSIDE ∧ item.1 ≠ Some OUTSIDE) stream, Returned).

(** [RemoveTransformation.__call__]: [mark is None] *)
Definition RemoveTransformation : Stage := λ stream,
  (filter (λ item, item.1 = None) stream, Returned).

(** [UnwrapTransformation.__call__]: [mark not in (ENTER, EXIT)] *)
Definition UnwrapTransformation : Stage := λ stream,
  (filter (λ item, item.1 ≠ Some ENTER ∧ item.1 ≠ Some EXIT) stream, Returned).

(** ** Wrapping *)

Section Wrap.
(** [list(self.element.generate())]: the events of the wrapping element
    ([genshi.builder] is outside this module). *)
Context (element : list (Event QName)).

(** [WrapTransformation.__call__].  [inrun] tells the inner [while True]
    loop, entered at a marked event, from the outer [for].  [element[:-1]]
    is [removelast element]; [element[-1]] on an empty list raises
    [IndexError]. *)
Fixpoint wrap_loop (inrun : bool) (stream : list MarkedEvent) : Gen MarkedEvent :=
  match stream with
  | [] => ([], if inrun then Raised StopIteration else Returned)
  | (mark, event) :: rest =>
      if inrun then
        if truthy mark then yield (mark, event) (wrap_loop true rest)
        else
          match last element with
          | Some closing =>
              yield (None, closing) (yield (mark, event) (wrap_loop false rest))
          | None => ([], Raised IndexError)
          end
      else
        if truthy mark then
          yield_all (map (λ prefix, (None, prefix)) (removelast element))
                    (yield (mark, event) (wrap_loop true rest))
        else yield (mark, event) (wrap_loop false rest)
  end.

Definition WrapTransformation : Stage := wrap_loop false.
End Wrap.

(** ** Injectors *)

Section Injector.
(** [_ensure(self.content)]: the events of the content to inject
    ([genshi.core._ensure] is outside this module). *)
Context (content : list (Event QName)).

(** [InjectorTransformation._inject] *)
Definition _inject : list MarkedEvent := map (λ event, (None, event)) content.

(** [ReplaceTransformation.__call__]; [skipping] is the inner [while True]. *)
Fixpoint replace_loop (skipping : bool) (stream : list MarkedEvent) : Gen MarkedEvent :=
  match stream with
  | [] => ([], if skipping then Raised StopIteration else Returned)
  | (mark, event) :: rest =>
      if skipping then
        match mark with
        | None => yield (mark, event) (replace_loop false rest)
        | Some _ => replace_loop true rest
        end
      else
        match mark with
        | Some _ => yield_all _inject (replace_loop true rest)
        | None => yield (mark, event) (replace_loop false rest)
        end
  end.

Definition ReplaceTransformation : Stage := replace_loop false.

(** [BeforeTransformation.__call__] *)
Fixpoint BeforeTransformation_loop (stream : list MarkedEvent) : list MarkedEvent :=
  match stream with
  | [] => []
  | (mark, event) :: rest =>
      (if bool_decide (mark = Some ENTER ∨ mark = Some OUTSIDE) then _inject else [])
        ++ (mark, event) :: BeforeTransformation_loop rest
  end.

Definition BeforeTransformation : Stage := λ stream,
  (BeforeTransformation_loop stream, Returned).

(** [AfterTransformation.__call__]; [inrun] is the inner [while True]. *)
Fixpoint after_loop (inrun : bool) (stream : list MarkedEvent) : Gen MarkedEvent :=
  match stream with
  | [] => ([], if inrun then Raised StopIteration else Returned)
  | (mark, event) :: rest =>
      if inrun then
        if truthy mark then yield (mark, event) (after_loop true rest)
        else yield_all _inject (yield (mark, event) (after_loop false rest))
      else yield (mark, event) (after_loop (truthy mark) rest)
  end.

Definition AfterTransformation : Stage := after_loop false.

(** [PrependTransformation.__call__] *)
Fixpoint PrependTransformation_loop (stream : list MarkedEvent) : list MarkedEvent :=
  match stream with
  | [] => []
  | (mark, event) :: rest =>
      (mark, event)
        :: (if bool_decide (mark = Some ENTER ∨ mark = Some OUTSIDE) then _inject else [])
        ++ PrependTransformation_loop rest
  end.

Definition PrependTransformation : Stage := λ stream,
  (PrependTransformation_loop stream, Returned).

(** [AppendTransformation.__call__]; [inside] is the inner [while True],
    entered after an [ENTER] and left at the next [EXIT]. *)
Fixpoint append_loop (inside : bool) (stream : list MarkedEvent) : Gen MarkedEvent :=
  match stream with
  | [] => ([], if inside then Raised StopIteration else Returned)
  | (mark, event) :: rest =>
      if inside then
        if bool_decide (mark = Some EXIT)
        then yield_all _inject (yield (mark, event) (append_loop false rest))
        else yield (mark, event) (append_loop true rest)
      else yield (mark, event) (append_loop (bool_decide (mark = Some ENTER)) rest)
  end.

Definition AppendTransformation : Stage := append_loop false.
End Injector.

(** ** The transformer *)

(** The [for link in self.transforms] loop of [Transformer.__call__]. *)
Definition apply_transforms (transforms : list Stage) (stream : Gen MarkedEvent)
    : Gen MarkedEvent :=
  foldl (λ stream link, feed link stream) stream transforms.

(** [Transformer.__call__]: mark, run the links in order, unmark. *)
Definition Transformer_call (transforms : list Stage) (stream : list (Event QName))
    : Gen (Event QName) :=
  feed (λ marked, (_unmark marked, Returned))
       (apply_transforms transforms (_mark stream, Returned)).

(** ** Text and escaping ([output.py] imports these from [genshi.core]) *)

Definition dquote : ascii := Ascii.ascii_of_nat 34.
Definition newline : ascii := Ascii.ascii_of_nat 10.
Definition tab : ascii := Ascii.ascii_of_nat 9.

(** The double quote as a one-character string. *)
Definition q : string := String dquote "".

(** Truth value of a string and of an optional string. *)
Definition nonempty (s : string) : bool :=
  match s with EmptyString => false | String _ _ => true end.

Definition truthy_str (s : option string) : bool :=
  match s with Some s => nonempty s | None => false end.

(** Modelled from the spec: [genshi.core.escape] is outside this module;
    text is escaped for [&], [<] and [>], and for the double quote (as
    [&#34;]) when [quotes] is set, as [test_escape] and
    [test_escape_noquotes] expect. *)
Fixpoint escape_str (quotes : bool) (s : string) : string :=
  match s with
  | EmptyString => EmptyString
  | String c s' =>
      (if Ascii.eqb c "&"%char then "&amp;"
       else if Ascii.eqb c "<"%char then "&lt;"
       else if Ascii.eqb c ">"%char then "&gt;"
       else if quotes && Ascii.eqb c dquote then "&#34;"
       else String c "") +:+ escape_str quotes s'
  end.

(** Modelled from the spec: [escape(text, quotes)] leaves literal markup as
    it is and escapes a plain string; the result is the content of the
    [Markup] returned. *)
Definition escape (text : Text) (quotes : bool) : string :=
  match text with
  | Markup s => s
  | Str s => escape_str quotes s
  end.

(** The characters of a text, as [yield data] hands them on. *)
Definition text_str (text : Text) : string :=
  match text with Str s | Markup s => s end.

Definition starts_with_newline (s : string) : bool :=
  match s with String c _ => Ascii.eqb c newline | EmptyString => false end.

(** [re.compile('[ \t]+(?=\n)').sub('', text)]: the default of
    [trim_trailing_space]; blanks that run up to a newline go. *)
Fixpoint trim_trailing_space (text : string) : string :=
  match text with
  | EmptyString => EmptyString
  | String c rest =>
      let rest' := trim_trailing_space rest in
      if (Ascii.eqb c " "%char || Ascii.eqb c tab) && starts_with_newline rest'
      then rest'
      else String c rest'
  end.

(** [re.compile('\n{2,}').sub('\n', text)]: the default of [collapse_lines]. *)
Fixpoint collapse_lines (text : string) : string :=
  match text with
  | EmptyString => EmptyString
  | String c rest =>
      let rest' := collapse_lines rest in
      if Ascii.eqb c newline && starts_with_newline rest'
      then rest'
      else String c rest'
  end.

(** ** Filters of [output.py] *)

(** [EmptyTagFilter.__call__].  [prev] starts as the triple of [None]s,
    here [None]; its kind is then not [START]. *)
Fixpoint EmptyTagFilter_loop {N} (prev : option (Event N)) (stream : list (Event N))
    : list (Event N) :=
  match stream with
  | [] => []
  | ev :: rest =>
      match prev with
      | Some (Start tag attrs pos) =>
          if is_kind END ev then
            let prev' := Empty tag attrs pos in
            prev' :: EmptyTagFilter_loop (Some prev') rest
          else
            Start tag attrs pos
              :: (if is_kind START ev then [] else [ev])
              ++ EmptyTagFilter_loop (Some ev) rest
      | _ =>
          (if is_kind START ev then [] else [ev])
            ++ EmptyTagFilter_loop (Some ev) rest
      end
  end.

Definition EmptyTagFilter {N} (stream : list (Event N)) : list (Event N) :=
  EmptyTagFilter_loop None stream.

(** The event that the loop holds back in [prev]: a [START] not yet
    yielded. *)
Definition pending {N} (prev : option (Event N)) : list (Event N) :=
  match prev with
  | Some (Start tag attrs pos) => [Start tag attrs pos]
  | _ => []
  end.

(** [XML_NAMESPACE], and [XML_NAMESPACE['space']]. *)
Definition XML_NAMESPACE : string := "http://www.w3.org/XML/1998/namespace".
Definition xml_space : QName := mkQName (Some XML_NAMESPACE) "space".

(** [attrs.get(name)]: the value of the first attribute of that name. *)
Fixpoint attrs_get {N} `{EqDecision N} (attrs : list (N * string)) (name : N)
    : option string :=
  match attrs with
  | [] => None
  | (attr, value) :: rest =>
      if decide (attr = name) then Some value else attrs_get rest name
  end.

Section Whitespace.
(** [self.preserve] and [self.noescape] *)
Context (preserve_elems noescape_elems : list QName).

(** The text event that the filter yields for the buffered text when an
    event other than [TEXT] arrives; [pos] is that event's position.
    [Markup('').join] escapes the items that are not markup already. *)
Definition flush_text (preserve : nat) (textbuf : list Text) (pos : Pos)
    : list (Event QName) :=
  match textbuf with
  | [] => []
  | _ =>
      let text :=
        match textbuf with
        | [data] => escape data false
        | _ => String.concat "" (map (λ item, escape item false) textbuf)
        end in
      let text :=
        match preserve with
        | O => collapse_lines (trim_trailing_space text)
        | S _ => text
        end in
      [TextEv (Markup text) pos]
  end.

(** The loop of [WhitespaceFilter.__call__] over the stream proper. *)
Fixpoint whitespace_loop (preserve : nat) (noescape : bool) (textbuf : list Text)
    (stream : list (Event QName)) : list (Event QName) :=
  match stream with
  | [] =>
      (* the end marker [(None, None, None)]: the buffer is written out and
         nothing follows, as [kind] is false *)
      flush_text preserve textbuf None
  | TextEv data pos :: rest =>
      let data := if noescape then Markup (text_str data) else data in
      whitespace_loop preserve noescape (textbuf ++ [data]) rest
  | ev :: rest =>
      let flushed :=
        flush_text preserve textbuf
          (match ev with
           | Start _ _ pos | End _ pos | TextEv _ pos | StartNs _ _ pos
           | EndNs _ pos | StartCdata pos | EndCdata pos | Pi _ _ pos
           | Comment _ pos | Doctype _ _ _ pos | Empty _ _ pos => pos
           end) in
      let '(preserve', noescape') :=
        match ev with
        | Start tag attrs _ =>
            ((if bool_decide (preserve ≠ 0)
                 || bool_decide (tag ∈ preserve_elems)
                 || bool_decide (attrs_get attrs xml_space = Some "preserve")
              then S preserve else preserve),
             (if negb noescape && bool_decide (tag ∈ noescape_elems)
              then true else noescape))
        | End _ _ => (Nat.pred preserve, false)
        | StartCdata _ => (preserve, true)
        | EndCdata _ => (preserve, false)
        | _ => (preserve, noescape)
        end in
      flushed ++ ev :: whitespace_loop preserve' noescape' [] rest
  end.

Definition WhitespaceFilter (stream : list (Event QName)) : list (Event QName) :=
  whitespace_loop 0 false [] stream.
End Whitespace.

(** ** Namespace flattening *)

Definition KeyError : string := "KeyError".

(** The local variables of [NamespaceFlattener.__call__]: [namespaces] maps a
    URI to the stack of its prefixes, [prefixes] a prefix to the stack of its
    URIs, [ns_attrs] collects the declarations for the next start tag, and
    [gen] counts the calls of [_gen_prefix]. *)
Record FlattenerState : Type := mkFlattenerState {
  namespaces : gmap string (list string);
  prefixes : gmap string (list string);
  ns_attrs : list (string * string);
  gen : nat
}.

(** [d.setdefault(k, []).append(v)] *)
Definition setdefault_append (k v : string) (d : gmap string (list string))
    : gmap string (list string) :=
  <[k := default [] (d !! k) ++ [v]]> d.

(** [_push_ns(prefix, uri)] *)
Definition _push_ns (prefix uri : string) (st : FlattenerState) : FlattenerState :=
  mkFlattenerState (setdefault_append uri prefix (namespaces st))
                   (setdefault_append prefix uri (prefixes st))
                   (ns_attrs st) (gen st).

(** [_push_ns_attr(attr)] *)
Definition _push_ns_attr (attr : string * string) (st : FlattenerState)
    : FlattenerState :=
  mkFlattenerState (namespaces st) (prefixes st) (ns_attrs st ++ [attr]) (gen st).

(** Decimal digits of a number, for ['ns%d' % val]. *)
Definition digit (n : nat) : string :=
  String (Ascii.ascii_of_nat (48 + n)) "".

Fixpoint decimal_fuel (fuel n : nat) : string :=
  match fuel with
  | O => ""
  | S fuel' =>
      if n <? 10 then digit n
      else decimal_fuel fuel' (n / 10) +:+ digit (n mod 10)
  end.

Definition decimal (n : nat) : string := decimal_fuel (S n) n.

(** [_gen_prefix()]: the next of [ns1], [ns2], ... *)
Definition _gen_prefix (st : FlattenerState) : string * FlattenerState :=
  ("ns" +:+ decimal (S (gen st)),
   mkFlattenerState (namespaces st) (prefixes st) (ns_attrs st) (S (gen st))).

(** [u'%s:%s' % (prefix, name)] when [prefix] is true, else [name]. *)
Definition prefixed (prefix name : string) : string :=
  if nonempty prefix then prefix +:+ ":" +:+ name else name.

(** A computation that an exception may leave. *)
Inductive Result (A : Type) : Type :=
| Ok (a : A)
| Error (exc : string).

Arguments Ok {A} a.
Arguments Error {A} exc.

#[global] Instance Result_ret : MRet Result := λ A a, Ok a.
#[global] Instance Result_bind : MBind Result := λ A B f r,
  match r with
  | Ok a => f a
  | Error exc => Error exc
  end.

#[global] Instance Result_fmap : FMap Result := λ A B f r,
  match r with
  | Ok a => Ok (f a)
  | Error exc => Error exc
  end.

(** [stack[-1]] *)
Definition top (stack : list string) : Result string :=
  match last stack with
  | Some x => Ok x
  | None => Error IndexError
  end.

(** [d[k]] *)
Definition getitem (d : gmap string (list string)) (k : string)
    : Result (list string) :=
  match d !! k with
  | Some v => Ok v
  | None => Error KeyError
  end.

(** The name under which the start-tag branch writes one attribute. *)
Definition flatten_attr (st : FlattenerState) (attr : QName)
    : Result (FlattenerState * string) :=
  let attrname := localname attr in
  if truthy_str (namespace attr) then
    let attrns := default "" (namespace attr) in
    match namespaces st !! attrns with
    | None =>
        let '(prefix, st) := _gen_prefix st in
        Ok (_push_ns prefix attrns st, prefixed prefix attrname)
    | Some stack =>
        prefix ← top stack;
        Ok (st, prefixed prefix attrname)
    end
  else Ok (st, attrname).

(** The [for attr, value in attrs] loop of the start-tag branch. *)
Fixpoint flatten_attrs (st : FlattenerState) (attrs : list (QName * string))
    : Result (FlattenerState * list (string * string)) :=
  match attrs with
  | [] => Ok (st, [])
  | (attr, value) :: rest =>
      '(st, attrname) ← flatten_attr st attr;
      '(st, new_attrs) ← flatten_attrs st rest;
      Ok (st, (attrname, value) :: new_attrs)
  end.

(** The name under which the start-tag branch writes the tag. *)
Definition flatten_tag (st : FlattenerState) (tag : QName)
    : Result (FlattenerState * string) :=
  let tagname := localname tag in
  if truthy_str (namespace tag) then
    let tagns := default "" (namespace tag) in
    match namespaces st !! tagns with
    | Some stack =>
        prefix ← top stack;
        Ok (st, prefixed prefix tagname)
    | None => Ok (_push_ns "" tagns (_push_ns_attr ("xmlns", tagns) st), tagname)
    end
  else Ok (st, tagname).

(** The start-tag branch: the name of the tag and the attributes
    [ns_attrs + new_attrs] that it yields; [ns_attrs] is emptied afterwards. *)
Definition flatten_start (st : FlattenerState) (tag : QName)
    (attrs : list (QName * string))
    : Result (FlattenerState * (string * list (string * string))) :=
  '(st, tagname) ← flatten_tag st tag;
  '(st, new_attrs) ← flatten_attrs st attrs;
  Ok (mkFlattenerState (namespaces st) (prefixes st) [] (gen st),
      (tagname, ns_attrs st ++ new_attrs)).

(** The [END] branch: the name it yields. *)
Definition flatten_end (st : FlattenerState) (data : QName) : Result string :=
  let tagname := localname data in
  if truthy_str (namespace data) then
    stack ← getitem (namespaces st) (default "" (namespace data));
    prefix ← top stack;
    Ok (prefixed prefix tagname)
  else Ok tagname.

(** The [START_NS] branch. *)
Definition flatten_start_ns (st : FlattenerState) (prefix uri : string)
    : Result FlattenerState :=
  match namespaces st !! uri with
  | None =>
      prefix ← top (default [prefix] (prefixes st !! uri));
      let attr :=
        if nonempty prefix then ("xmlns:" +:+ prefix, uri) else ("xmlns", uri) in
      Ok (_push_ns prefix uri (_push_ns_attr attr st))
  | Some _ => Ok (_push_ns prefix uri st)
  end.

(** [stack.pop()] done in a dictionary: the entry goes with its last item. *)
Definition pop_in (k : string) (stack : list string) (d : gmap string (list string))
    : gmap string (list string) :=
  match removelast stack with
  | [] => delete k d
  | stack' => <[k := stack']> d
  end.

(** The [END_NS] branch. *)
Definition flatten_end_ns (st : FlattenerState) (data : string)
    : Result FlattenerState :=
  match prefixes st !! data with
  | None => Ok st
  | Some uri_stack =>
      uri ← top uri_stack;
      let uris := removelast uri_stack in
      let prefixes' := pop_in data uri_stack (prefixes st) in
      if bool_decide (uri ∉ uris) || bool_decide (last uris ≠ Some uri) then
        uri_prefixes ← getitem (namespaces st) uri;
        _ ← top uri_prefixes;
        Ok (mkFlattenerState (pop_in uri uri_prefixes (namespaces st))
                             prefixes' (ns_attrs st) (gen st))
      else Ok (mkFlattenerState (namespaces st) prefixes' (ns_attrs st) (gen st))
  end.

(** One pass through the loop of [NamespaceFlattener.__call__]: the new
    state and the events yielded. *)
Definition flatten_step (st : FlattenerState) (ev : Event QName)
    : Result (FlattenerState * list (Event string)) :=
  match ev with
  | Start tag attrs pos =>
      '(st, (tagname, attrs)) ← flatten_start st tag attrs;
      Ok (st, [Start tagname attrs pos])
  | Empty tag attrs pos =>
      '(st, (tagname, attrs)) ← flatten_start st tag attrs;
      Ok (st, [Empty tagname attrs pos])
  | End data pos =>
      tagname ← flatten_end st data;
      Ok (st, [End tagname pos])
  | StartNs prefix uri pos =>
      st ← flatten_start_ns st prefix uri;
      Ok (st, [])
  | EndNs data pos =>
      st ← flatten_end_ns st data;
      Ok (st, [])
  | TextEv text pos => Ok (st, [TextEv text pos])
  | StartCdata pos => Ok (st, [StartCdata pos])
  | EndCdata pos => Ok (st, [EndCdata pos])
  | Pi target data pos => Ok (st, [Pi target data pos])
  | Comment text pos => Ok (st, [Comment text pos])
  | Doctype name pubid sysid pos => Ok (st, [Doctype name pubid sysid pos])
  end.

Fixpoint flatten_loop (st : FlattenerState) (stream : list (Event QName))
    : Gen (Event string) :=
  match stream with
  | [] => ([], Returned)
  | ev :: rest =>
      match flatten_step st ev with
      | Ok (st', out) => yield_all out (flatten_loop st' rest)
      | Error exc => ([], Raised exc)
      end
  end.

(** The state of the loop once it has consumed the stream, if no exception
    has left it. *)
Fixpoint flatten_run (st : FlattenerState) (stream : list (Event QName))
    : Result FlattenerState :=
  match stream with
  | [] => Ok st
  | ev :: rest =>
      '(st', _) ← flatten_step st ev;
      flatten_run st' rest
  end.

(** [self.prefixes]: the mapping of URIs to prefixes given to the
    constructor, over [{XML_NAMESPACE.uri: 'xml'}]. *)
Definition flattener_prefixes (given : option (gmap string string))
    : gmap string string :=
  default ∅ given ∪ {[XML_NAMESPACE := "xml"]}.

(** The state in which the loop starts:
    [prefixes = dict([(v, [k]) for k, v in self.prefixes.items()])] and
    [namespaces = {XML_NAMESPACE.uri: ['xml']}]. *)
Definition flattener_init (given : option (gmap string string)) : FlattenerState :=
  mkFlattenerState
    {[XML_NAMESPACE := ["xml"]]}
    (map_fold (λ k v d, <[v := [k]]> d) ∅ (flattener_prefixes given))
    [] 0.

Definition NamespaceFlattener (given : option (gmap string string))
    (stream : list (Event QName)) : Gen (Event string) :=
  flatten_loop (flattener_init given) stream.

(** ** Namespace stripping *)

(** [qname in self.namespace]: [Namespace.__contains__] compares the URI; the
    empty dictionary that stands for no namespace holds nothing. *)
Definition in_namespace (ns : option string) (qname : QName) : bool :=
  match ns with
  | Some uri => bool_decide (namespace qname = Some uri)
  | None => false
  end.

(** [qname.namespace and qname not in namespace]: the test under which the
    stripper passes over a tag; for an attribute, its negation keeps it. *)
Definition not_kept (ns : option string) (qname : QName) : bool :=
  truthy_str (namespace qname) && negb (in_namespace ns qname).

(** [QName(name)]: a qualified name with no namespace. *)
Definition plain (name : string) : QName := mkQName None name.

(** The names in what the stripper yields.  The tag of an element is
    [tag.localname], a plain unicode string, which has no [namespace] and no
    [localname]; an attribute is the [QName] that it was. *)
Inductive Name : Type :=
| Unicode (s : string)
| Qualified (qname : QName).

#[global] Instance Name_eq_dec : EqDecision Name.
Proof. solve_decision. Defined.

(** The [for attr, value in attrs] loop: [new_attrs]. *)
Definition strip_attrs (ns : option string) (attrs : list (QName * string))
    : list (QName * string) :=
  filter (λ item, negb (truthy_str (namespace item.1)) || in_namespace ns item.1 = true)
         attrs.

(** One pass through the loop of [NamespaceStripper.__call__]: the events
    yielded for one event of the stream.  The data of a tag becomes
    [tag.localname, Attrs(new_attrs)], that of an end tag [data.localname];
    any other event that is yielded is yielded as it is. *)
Definition strip_event (ns : option string) (ev : Event QName) : list (Event Name) :=
  let new_attrs (attrs : list (QName * string)) : list (Name * string) :=
    map (λ item, (Qualified item.1, item.2)) (strip_attrs ns attrs) in
  match ev with
  | Start tag attrs pos =>
      if truthy_str (namespace tag) && negb (in_namespace ns tag) then []
      else [Start (Unicode (localname tag)) (new_attrs attrs) pos]
  | Empty tag attrs pos =>
      if truthy_str (namespace tag) && negb (in_namespace ns tag) then []
      else [Empty (Unicode (localname tag)) (new_attrs attrs) pos]
  | End data pos =>
      if truthy_str (namespace data) && negb (in_namespace ns data) then []
      else [End (Unicode (localname data)) pos]
  | StartNs _ _ _ | EndNs _ _ => []
  | TextEv text pos => [TextEv text pos]
  | StartCdata pos => [StartCdata pos]
  | EndCdata pos => [EndCdata pos]
  | Pi target data pos => [Pi target data pos]
  | Comment text pos => [Comment text pos]
  | Doctype name pubid sysid pos => [Doctype name pubid sysid pos]
  end.

Definition NamespaceStripper (ns : option string) (stream : list (Event QName))
    : list (Event Name) :=
  concat (map (strip_event ns) stream).

(** ** Serializers *)

Definition TypeError : string := "TypeError".

(** The [DOCTYPE] branch of the serializers: the format is put together from
    the parts that are true and filled with [filter(None, data)], escaped.
    Modelled from the spec: [Markup(text, *args)] of [genshi.core] formats
    [text] with the escaped [args] when there are any; a false name leaves
    one argument too few for the format. *)
Definition render_doctype (name pubid sysid : option string) : Result string :=
  let text (name_arg pubid_arg sysid_arg : string) :=
    "<!DOCTYPE " +:+ name_arg
    +:+ (if truthy_str pubid then " PUBLIC " +:+ q +:+ pubid_arg +:+ q
         else if truthy_str sysid then " SYSTEM" else "")
    +:+ (if truthy_str sysid then " " +:+ q +:+ sysid_arg +:+ q else "")
    +:+ ">" +:+ String newline "" in
  let arg (a : option string) := escape_str true (default "" a) in
  if truthy_str name then Ok (text (arg name) (arg pubid) (arg sysid))
  else if truthy_str pubid || truthy_str sysid then Error TypeError
  else Ok (text "%s" "%s" "%s").

(** [' ', attr, '="', escape(value), '"'] *)
Definition render_attr (attr value : string) : string :=
  " " +:+ attr +:+ "=" +:+ q +:+ escape_str true value +:+ q.

(** [XMLSerializer.__call__]: the loop over the filtered stream. *)
Fixpoint xml_loop (have_doctype in_cdata : bool) (stream : list (Event string))
    : Gen string :=
  match stream with
  | [] => ([], Returned)
  | ev :: rest =>
      match ev with
      | Start tag attrib _ =>
          yield ("<" +:+ tag
                 +:+ String.concat "" (map (λ '(attr, value), render_attr attr value) attrib)
                 +:+ ">")
                (xml_loop have_doctype in_cdata rest)
      | Empty tag attrib _ =>
          yield ("<" +:+ tag
                 +:+ String.concat "" (map (λ '(attr, value), render_attr attr value) attrib)
                 +:+ "/>")
                (xml_loop have_doctype in_cdata rest)
      | End data _ => yield ("</" +:+ data +:+ ">") (xml_loop have_doctype in_cdata rest)
      | TextEv data _ =>
          yield (if in_cdata then text_str data else escape data false)
                (xml_loop have_doctype in_cdata rest)
      | Comment data _ =>
          yield ("<!--" +:+ data +:+ "-->") (xml_loop have_doctype in_cdata rest)
      | Doctype name pubid sysid _ =>
          if have_doctype then xml_loop have_doctype in_cdata rest
          else
            match render_doctype name pubid sysid with
            | Ok text => yield text (xml_loop true in_cdata rest)
            | Error exc => ([], Raised exc)
            end
      | StartCdata _ => yield "<![CDATA[" (xml_loop have_doctype true rest)
      | EndCdata _ => yield "]]>" (xml_loop have_doctype false rest)
      | Pi target data _ =>
          yield ("<?" +:+ target +:+ " " +:+ data +:+ "?>")
                (xml_loop have_doctype in_cdata rest)
      | StartNs _ _ _ | EndNs _ _ => xml_loop have_doctype in_cdata rest
      end
  end.

(** [self.preamble] *)
Definition preamble {N} (doctype : option (option string * option string * option string))
    : list (Event N) :=
  match doctype with
  | Some (name, pubid, sysid) => [Doctype name pubid sysid (Some (None, -1, -1)%Z)]
  | None => []
  end.

(** [XMLSerializer(doctype, strip_whitespace, namespace_prefixes)(stream)];
    [_PRESERVE_SPACE] is empty. *)
Definition XMLSerializer (doctype : option (option string * option string * option string))
    (strip_whitespace : bool) (namespace_prefixes : option (gmap string string))
    (stream : list (Event QName)) : Gen string :=
  let stream := preamble doctype ++ stream in
  let stream := EmptyTagFilter stream in
  let stream := if strip_whitespace then WhitespaceFilter [] [] stream else stream in
  feed (xml_loop false false) (NamespaceFlattener namespace_prefixes stream).

Definition XHTML_NAMESPACE : string := "http://www.w3.org/1999/xhtml".

(** [XHTMLSerializer._EMPTY_ELEMS], [_BOOLEAN_ATTRS] and [_PRESERVE_SPACE] *)
Definition _EMPTY_ELEMS : list string :=
  ["area"; "base"; "basefont"; "br"; "col"; "frame"; "hr"; "img"; "input";
   "isindex"; "link"; "meta"; "param"].

Definition _BOOLEAN_ATTRS : list string :=
  ["selected"; "checked"; "compact"; "declare"; "defer"; "disabled"; "ismap";
   "multiple"; "nohref"; "noresize"; "noshade"; "nowrap"].

Definition _PRESERVE_SPACE : list QName :=
  [mkQName None "pre"; mkQName (Some XHTML_NAMESPACE) "pre";
   mkQName None "textarea"; mkQName (Some XHTML_NAMESPACE) "textarea"].

(** [XHTMLSerializer.__call__]: the loop over the filtered stream. *)
Fixpoint xhtml_loop (have_doctype in_cdata : bool) (stream : list (Event string))
    : Gen string :=
  match stream with
  | [] => ([], Returned)
  | ev :: rest =>
      let render_attrs (attrib : list (string * string)) :=
        String.concat ""
          (map (λ '(attr, value),
                  render_attr attr (if bool_decide (attr ∈ _BOOLEAN_ATTRS)
                                    then attr else value))
               attrib) in
      match ev with
      | Start tag attrib _ =>
          yield ("<" +:+ tag +:+ render_attrs attrib +:+ ">")
                (xhtml_loop have_doctype in_cdata rest)
      | Empty tag attrib _ =>
          yield ("<" +:+ tag +:+ render_attrs attrib
                 +:+ (if bool_decide (tag ∈ _EMPTY_ELEMS) then " />"
                      else "></" +:+ tag +:+ ">"))
                (xhtml_loop have_doctype in_cdata rest)
      | End data _ => yield ("</" +:+ data +:+ ">") (xhtml_loop have_doctype in_cdata rest)
      | TextEv data _ =>
          yield (if in_cdata then text_str data else escape data false)
                (xhtml_loop have_doctype in_cdata rest)
      | Comment data _ =>
          yield ("<!--" +:+ data +:+ "-->") (xhtml_loop have_doctype in_cdata rest)
      | Doctype name pubid sysid _ =>
          if have_doctype then xhtml_loop have_doctype in_cdata rest
          else
            match render_doctype name pubid sysid with
            | Ok text => yield text (xhtml_loop true in_cdata rest)
            | Error exc => ([], Raised exc)
            end
      | StartCdata _ => yield "<![CDATA[" (xhtml_loop have_doctype true rest)
      | EndCdata _ => yield "]]>" (xhtml_loop have_doctype false rest)
      | Pi target data _ =>
          yield ("<?" +:+ target +:+ " " +:+ data +:+ "?>")
                (xhtml_loop have_doctype in_cdata rest)
      | StartNs _ _ _ | EndNs _ _ => xhtml_loop have_doctype in_cdata rest
      end
  end.

(** [XHTMLSerializer(doctype, strip_whitespace, namespace_prefixes)(stream)]:
    the XHTML namespace is given the empty prefix. *)
Definition XHTMLSerializer (doctype : option (option string * option string * option string))
    (strip_whitespace : bool) (namespace_prefixes : option (gmap string string))
    (stream : list (Event QName)) : Gen string :=
  let stream := preamble doctype ++ stream in
  let stream := EmptyTagFilter stream in
  let stream :=
    if strip_whitespace then WhitespaceFilter _PRESERVE_SPACE [] stream else stream in
  let namespace_prefixes := <[XHTML_NAMESPACE := ""]> (default ∅ namespace_prefixes) in
  feed (xhtml_loop false false) (NamespaceFlattener (Some namespace_prefixes) stream).

(** Modelled from the spec: the characters of a [QName] ([genshi.core] is
    outside this module): the local name, after the URI in braces when the
    name has a namespace. *)
Definition unicode_of (qname : QName) : string :=
  match namespace qname with
  | Some uri => "{" +:+ uri +:+ "}" +:+ localname qname
  | None => localname qname
  end.

(** [HTMLSerializer._NOESCAPE_ELEMS] *)
Definition _NOESCAPE_ELEMS : list QName :=
  [mkQName None "script"; mkQName (Some XHTML_NAMESPACE) "script";
   mkQName None "style"; mkQName (Some XHTML_NAMESPACE) "style"].

(** The characters of a name in a stripped stream. *)
Definition unicode_of_name (name : Name) : string :=
  match name with
  | Unicode s => s
  | Qualified qname => unicode_of qname
  end.

(** [HTMLSerializer.__call__]: the loop over the filtered stream; names are
    compared and written as the strings they are. *)
Fixpoint html_loop (have_doctype noescape : bool) (stream : list (Event Name))
    : Gen string :=
  match stream with
  | [] => ([], Returned)
  | ev :: rest =>
      let render_attrs (attrib : list (Name * string)) :=
        String.concat ""
          (map (λ '(attr, value),
                  if bool_decide (unicode_of_name attr ∈ _BOOLEAN_ATTRS)
                  then (if nonempty value then " " +:+ unicode_of_name attr else "")
                  else render_attr (unicode_of_name attr) value)
               attrib) in
      let noescape_after (tag : Name) :=
        if bool_decide (unicode_of_name tag ∈ map unicode_of _NOESCAPE_ELEMS)
        then true else noescape in
      match ev with
      | Start tag attrib _ =>
          yield ("<" +:+ unicode_of_name tag +:+ render_attrs attrib +:+ ">")
                (html_loop have_doctype (noescape_after tag) rest)
      | Empty tag attrib _ =>
          yield ("<" +:+ unicode_of_name tag +:+ render_attrs attrib +:+ ">"
                 +:+ (if bool_decide (unicode_of_name tag ∈ _EMPTY_ELEMS) then ""
                      else "</" +:+ unicode_of_name tag +:+ ">"))
                (html_loop have_doctype (noescape_after tag) rest)
      | End data _ =>
          yield ("</" +:+ unicode_of_name data +:+ ">") (html_loop have_doctype false rest)
      | TextEv data _ =>
          yield (if noescape then text_str data else escape data false)
                (html_loop have_doctype noescape rest)
      | Comment data _ =>
          yield ("<!--" +:+ data +:+ "-->") (html_loop have_doctype noescape rest)
      | Doctype name pubid sysid _ =>
          if have_doctype then html_loop have_doctype noescape rest
          else
            match render_doctype name pubid sysid with
            | Ok text => yield text (html_loop true noescape rest)
            | Error exc => ([], Raised exc)
            end
      | Pi target data _ =>
          yield ("<?" +:+ target +:+ " " +:+ data +:+ "?>")
                (html_loop have_doctype noescape rest)
      | StartCdata _ | EndCdata _ | StartNs _ _ _ | EndNs _ _ =>
          html_loop have_doctype noescape rest
      end
  end.

(** [HTMLSerializer(doctype, strip_whitespace)(stream)] *)
Definition HTMLSerializer (doctype : option (option string * option string * option string))
    (strip_whitespace : bool) (stream : list (Event QName)) : Gen string :=
  let stream := preamble doctype ++ stream in
  let stream := EmptyTagFilter stream in
  let stream :=
    if strip_whitespace then WhitespaceFilter _PRESERVE_SPACE _NOESCAPE_ELEMS stream
    else stream in
  html_loop false false (NamespaceStripper (Some XHTML_NAMESPACE) stream).

(** [''.join(serializer(stream))] *)
Definition joined (chunks : Gen string) : string := String.concat "" chunks.1.

(** ** Well-formed streams and the contracts of the stages *)

(** The nesting depth after the events, from depth [d]; [None] when an [END]
    comes at depth zero. *)
Fixpoint nesting {N} (d : nat) (events : list (Event N)) : option nat :=
  match events with
  | [] => Some d
  | ev :: rest =>
      if is_kind START ev then nesting (S d) rest
      else if is_kind END ev then
        match d with
        | O => None
        | S d' => nesting d' rest
        end
      else nesting d rest
  end.

(** Every [START] has its [END] at the same depth, and no [END] is stray. *)
Definition well_formed {N} (events : list (Event N)) : Prop :=
  nesting 0 events = Some 0.

Section Marks.
Context (path : Selector).

(** The marks that the selection stage is to give, in the words of the
    data model: a selected element is [ENTER], [INSIDE] for the events
    nested in it, [EXIT]; a selected event that opens no element is
    [OUTSIDE]; an event not selected has the null mark.  The selector
    sees the events of a selected element with [updateonly]. *)
Inductive marks_of : sel_state path → list (Event QName) → list MarkedEvent → Prop :=
| marks_nil st : marks_of st [] []
| marks_element st start body stop rest out :
    kind start = START →
    (sel_test path st start false).2 = RTrue →
    well_formed body →
    kind stop = END →
    marks_of (update_only path (sel_test path st start false).1 (body ++ [stop]))
             rest out →
    marks_of st (start :: body ++ stop :: rest)
             ((Some ENTER, start)
                :: map (λ event, (Some INSIDE, event)) body
                ++ (Some EXIT, stop) :: out)
| marks_outside st event rest out :
    kind event ≠ START →
    (sel_test path st event false).2 = RTrue →
    marks_of (sel_test path st event false).1 rest out →
    marks_of st (event :: rest) ((Some OUTSIDE, event) :: out)
| marks_none st event rest out :
    (sel_test path st event false).2 = RFalse →
    marks_of (sel_test path st event false).1 rest out →
    marks_of st (event :: rest) ((None, event) :: out).
End Marks.

(** [out] is [stream] with some of its items dropped and copies of the block
    [injected] put in between; the items kept are as they were. *)
Inductive woven (injected : list MarkedEvent)
    : list MarkedEvent → list MarkedEvent → Prop :=
| woven_nil : woven injected [] []
| woven_keep item stream out :
    woven injected stream out → woven injected (item :: stream) (item :: out)
| woven_drop item stream out :
    woven injected stream out → woven injected (item :: stream) out
| woven_inject stream out :
    woven injected stream out → woven injected stream (injected ++ out).

(** What [EmptyTagFilter] is to do, in the words of its contract: a [START]
    that an [END] follows at once becomes one [EMPTY] event with the data of
    the [START]; everything else passes. *)
Fixpoint coalesce {N} (stream : list (Event N)) : list (Event N) :=
  match stream with
  | [] => []
  | ev :: rest =>
      match ev, rest with
      | Start tag attrs pos, next :: rest' =>
          if is_kind END next then Empty tag attrs pos :: coalesce rest'
          else ev :: coalesce rest
      | _, _ => ev :: coalesce rest
      end
  end.

(** ** Streams and selectors of the examples *)

(** A selector without state that answers [True] to the start tags of the
    elements named [name], as the path [name] does among siblings. *)
Definition select_tag (name : string) : Selector :=
  mkSelector unit ()
    (λ st event updateonly,
       (st, match event with
            | Start tag _ _ => if bool_decide (localname tag = name) then RTrue else RFalse
            | _ => RFalse
            end)).

(** A selector without state that answers [True] to text, as [text()] does. *)
Definition select_text : Selector :=
  mkSelector unit ()
    (λ st event updateonly,
       (st, if is_kind TEXT event then RTrue else RFalse)).

(** The position [(None, -1, -1)] of events that come from no source text. *)
Definition nowhere : Pos := Some (None, -1, -1)%Z.

Definition elem (name : string) (attrs : list (QName * string)) (children : list (Event QName))
    : list (Event QName) :=
  Start (plain name) attrs nowhere :: children ++ [End (plain name) nowhere].

(** The events of [<a><b/><c/></a>]. *)
Definition abc : list (Event QName) :=
  elem "a" [] (elem "b" [] [] ++ elem "c" [] []).

(** Modelled from the spec: the events that
    [tag.div(tag.a(href='foo'), tag.br, tag.hr(noshade=True)).generate()]
    yields ([genshi.builder] is outside this module): start and end events
    of the elements in document order, an attribute value that is no string
    converted to one, as [test_nonstring_attributes] expects. *)
Definition div_fragment : list (Event QName) :=
  elem "div" []
    (elem "a" [(plain "href", "foo")] []
     ++ elem "br" [] []
     ++ elem "hr" [(plain "noshade", "True")] []).

(** ** Buffers ([transform.py]) *)

(** A [StreamBuffer] holds a list of events; [append] and [reset]. *)
Definition StreamBuffer : Type := list (Event QName).

Definition StreamBuffer_append (buffer : StreamBuffer) (event : Event QName)
    : StreamBuffer :=
  buffer ++ [event].

Definition StreamBuffer_reset (buffer : StreamBuffer) : StreamBuffer := [].

(** [CopyTransformation.__call__]: the buffer is emptied, the stream is read
    to its end into a list, the events with a true mark are appended to the
    buffer, and that list is returned.  The buffer is passed in and out. *)
Definition CopyTransformation (buffer : StreamBuffer) (stream : list MarkedEvent)
    : StreamBuffer * list MarkedEvent :=
  let buffer := StreamBuffer_reset buffer in
  let buffer :=
    foldl (λ buffer '(mark, event),
             if truthy mark then StreamBuffer_append buffer event else buffer)
          buffer stream in
  (buffer, stream).

(** [CutTransformation.__call__]: [CopyTransformation.__call__], then
    [RemoveTransformation.__call__] on what it returns. *)
Definition CutTransformation (buffer : StreamBuffer) (stream : list MarkedEvent)
    : StreamBuffer * Gen MarkedEvent :=
  let '(buffer, stream) := CopyTransformation buffer stream in
  (buffer, RemoveTransformation stream).

(** ** Text output ([output.py]) *)

Section Text.
(** [data.striptags().stripentities()] of a [Markup] ([genshi.core] is
    outside this module). *)
Context (strip_markup : string → string).

(** [TextSerializer.__call__] *)
Fixpoint TextSerializer {N} (stream : list (Event N)) : list string :=
  match stream with
  | [] => []
  | TextEv data _ :: rest =>
      (match data with
       | Markup text => strip_markup text
       | Str text => text
       end) :: TextSerializer rest
  | _ :: rest => TextSerializer rest
  end.
End Text.

(** ** Notions for the properties of the stages *)

(** An item with a true mark: a selected one. *)
Definition selected (item : MarkedEvent) : bool := truthy item.1.

(** The items before which [before] and behind which [prepend] inject. *)
Definition entering (item : MarkedEvent) : bool :=
  bool_decide (item.1 = Some ENTER ∨ item.1 = Some OUTSIDE).

(** The events that are no tags: neither [START], [END] nor [EMPTY]. *)
Definition is_tag {N} (ev : Event N) : bool :=
  is_kind START ev || is_kind END ev || is_kind EMPTY ev.


(** An event the names of which have no namespace, and which is no
    namespace event. *)
Definition plain_event (ev : Event QName) : Prop :=
  match ev with
  | Start tag attrs _ | Empty tag attrs _ =>
      namespace tag = None ∧ Forall (λ item, namespace item.1 = None) attrs
  | End tag _ => namespace tag = None
  | StartNs _ _ _ | EndNs _ _ => False
  | _ => True
  end.

(** The event with its names changed by [f]. *)
Definition rename {N M} (f : N → M) (ev : Event N) : Event M :=
  match ev with
  | Start tag attrs pos => Start (f tag) (map (λ item, (f item.1, item.2)) attrs) pos
  | Empty tag attrs pos => Empty (f tag) (map (λ item, (f item.1, item.2)) attrs) pos
  | End tag pos => End (f tag) pos
  | TextEv text pos => TextEv text pos
  | StartNs prefix uri pos => StartNs prefix uri pos
  | EndNs prefix pos => EndNs prefix pos
  | StartCdata pos => StartCdata pos
  | EndCdata pos => EndCdata pos
  | Pi target data pos => Pi target data pos
  | Comment text pos => Comment text pos
  | Doctype name pubid sysid pos => Doctype name pubid sysid pos
  end.

(** A URI or prefix that has a binding in effect: a stack that is not
    empty. *)
Definition bound (bindings : gmap string (list string)) (key : string) : Prop :=
  ∃ stack, bindings !! key = Some stack ∧ stack ≠ [].

(** No binding has been taken away between [before] and [after]: every
    stack of [before] is there in [after], with more pushed on it or not. *)
Definition bindings_kept (before after : gmap string (list string)) : Prop :=
  ∀ key stack, before !! key = Some stack →
    ∃ pushed, after !! key = Some (stack ++ pushed).


(** * Properties *)

(** ** Generators *)

Lemma yield_all_nil {A} (g : Gen A) : yield_all [] g = g.
Proof. by destruct g. Qed.

Lemma yield_all_cons {A} (x : A) xs (g : Gen A) :
  yield_all (x :: xs) g = yield x (yield_all xs g).
Proof. done. Qed.

Lemma yield_all_app {A} (xs ys : list A) (g : Gen A) :
  yield_all (xs ++ ys) g = yield_all xs (yield_all ys g).
Proof. unfold yield_all; simpl. by rewrite app_assoc. Qed.

(** ** The selection stage *)

Section SelectFacts.
Context (path : Selector).

Lemma select_loop_cons c item rest :
  select_loop path c (item :: rest)
  = yield (select_step path c item).2
          (select_loop path (select_step path c item).1 rest).
Proof. simpl. by destruct (select_step path c item). Qed.


(** The body ends by a return in the [for] loop and by [StopIteration] in
    the [while] loop. *)
Lemma select_loop_outcome c stream :
  (select_loop path c stream).2
  = match (select_run path c stream).2 with
    | O => Returned
    | S _ => Raised StopIteration
    end.
Proof.
  revert c. induction stream as [|item rest IH]; intros c; [done|].
  rewrite select_loop_cons. simpl. apply IH.
Qed.

(** The marks read from the stream play no part. *)
Lemma select_step_ignores_mark c mark mark' event :
  select_step path c (mark, event) = select_step path c (mark', event).
Proof. by destruct c. Qed.

Lemma select_loop_ignores_marks c stream :
  select_loop path c stream = select_loop path c (_mark (_unmark stream)).
Proof.
  revert c. induction stream as [|[mark event] rest IH]; intros c; [done|].
  cbn [_mark _unmark map snd]. rewrite !select_loop_cons.
  rewrite (select_step_ignores_mark c mark None). f_equal. apply IH.
Qed.

(** Inside a selected element, at the depth [S d] of the [while] loop: the
    events up to the [END] that brings the depth to zero are [INSIDE],
    that [END] is [EXIT], and the [for] loop goes on behind it. *)
Lemma select_inside (stream : list MarkedEvent) :
  ∀ d k st,
    nesting (k + S d) (_unmark stream) = Some 0 →
    ∃ body stop rest,
      stream = body ++ stop :: rest
      ∧ nesting d (_unmark body) = Some 0
      ∧ kind stop.2 = END
      ∧ nesting k (_unmark rest) = Some 0
      ∧ select_loop path (st, S d) stream
        = yield_all (map (λ item, (Some INSIDE, item.2)) body)
            (yield (Some EXIT, stop.2)
               (select_loop path
                  (update_only path st (_unmark (body ++ [stop])), 0) rest)).
Proof.
  induction stream as [|[mark event] stream IH]; intros d k st Hn.
  { simpl in Hn. injection Hn as Hn. lia. }
  cbn [_unmark map snd nesting] in Hn. fold (_unmark stream) in Hn.
  rewrite select_loop_cons.
  unfold select_step. unfold is_kind in *.
  destruct (bool_decide (kind event = START)) eqn:Hs.
  - replace (S (k + S d)) with (k + S (S d)) in Hn by lia.
    destruct (IH (S d) k (sel_test path st event true).1 Hn)
      as (body & stop & rest & -> & Hb & Hk & Hr & Heq).
    exists ((mark, event) :: body), stop, rest. repeat split; try done.
    + cbn [_unmark map snd nesting]. unfold is_kind. by rewrite Hs.
    + cbn [fst snd]. rewrite Heq. done.
  - destruct (bool_decide (kind event = END)) eqn:He.
    + replace (k + S d) with (S (k + d)) in Hn by lia.
      destruct d as [|d].
      * exists [], (mark, event), stream. repeat split; try done.
        -- by apply bool_decide_eq_true in He.
        -- by rewrite Nat.add_0_r in Hn.
      * destruct (IH d k (sel_test path st event true).1 Hn)
          as (body & stop & rest & -> & Hb & Hk & Hr & Heq).
        exists ((mark, event) :: body), stop, rest. repeat split; try done.
        -- cbn [_unmark map snd nesting]. unfold is_kind. by rewrite Hs, He.
        -- cbn [fst snd]. rewrite Heq. done.
    + destruct (IH d k (sel_test path st event true).1 Hn)
        as (body & stop & rest & -> & Hb & Hk & Hr & Heq).
      exists ((mark, event) :: body), stop, rest. repeat split; try done.
      * cbn [_unmark map snd nesting]. unfold is_kind. by rewrite Hs, He.
      * cbn [fst snd]. rewrite Heq. done.
Qed.
End SelectFacts.

Section SelectMarks.
Context (path : Selector).
Hypothesis answers_bool : ∀ st event result,
  (sel_test path st event false).2 ≠ RValue result.

(** In the [for] loop, on what is left of a well-formed stream, at any
    depth [k] of the document. *)
Lemma select_outside (n : nat) :
  ∀ (stream : list MarkedEvent) k st,
    length stream ≤ n →
    nesting k (_unmark stream) = Some 0 →
    marks_of path st (_unmark stream) (select_loop path (st, 0) stream).1
    ∧ (select_loop path (st, 0) stream).2 = Returned.
Proof.
  induction n as [|n IH]; intros stream k st Hlen Hn.
  { destruct stream; [|simpl in Hlen; lia]. split; [constructor|done]. }
  destruct stream as [|[mark event] stream]; [split; [constructor|done]|].
  simpl in Hlen.
  cbn [_unmark map snd nesting] in Hn. fold (_unmark stream) in Hn.
  rewrite select_loop_cons. unfold select_step.
  cbn [_unmark map snd]. fold (_unmark stream).
  destruct (sel_test path st event false) as [st' result] eqn:Htest.
  assert (Hres : (sel_test path st event false).2 = result) by by rewrite Htest.
  assert (Hst : (sel_test path st event false).1 = st') by by rewrite Htest.
  destruct result as [| |result].
  - (* selected *)
    unfold is_kind in *.
    destruct (bool_decide (kind event = START)) eqn:Hs.
    + replace (S k) with (k + 1) in Hn by lia.
      destruct (select_inside path stream 0 k st' Hn)
        as (body & stop & rest & -> & Hb & Hk & Hr & Heq).
      cbn [fst snd]. rewrite Heq.
      rewrite length_app in Hlen. simpl in Hlen.
      destruct (IH rest k (update_only path st' (_unmark (body ++ [stop])))
                  ltac:(lia) Hr) as [Hm Ho].
      split; [|done].
      unfold yield, yield_all. cbn [fst snd].
      unfold _unmark at 1. rewrite map_app. cbn [map].
      match goal with
      | |- marks_of _ _ _ (_ :: ?inside ++ _) =>
          replace inside
            with (map (λ event : Event QName, (Some INSIDE, event)) (map snd body))
            by (by rewrite map_map)
      end.
      apply marks_element; try done.
      * by apply bool_decide_eq_true in Hs.
      * rewrite Hst. unfold _unmark in Hm |- *.
        rewrite map_app in *. exact Hm.
    + assert (Hn' : ∃ k', nesting k' (_unmark stream) = Some 0).
      { destruct (bool_decide (kind event = END)); [|by eauto].
        destruct k; [done|by eauto]. }
      destruct Hn' as [k' Hn'].
      destruct (IH stream k' st' ltac:(lia) Hn') as [Hm Ho].
      split; [|done]. cbn [fst snd yield].
      apply marks_outside; try done.
      * by apply bool_decide_eq_false in Hs.
      * by rewrite Hst.
  - (* not selected *)
    assert (Hn' : ∃ k', nesting k' (_unmark stream) = Some 0).
    { unfold is_kind in Hn.
      destruct (bool_decide (kind event = START)); [by eauto|].
      destruct (bool_decide (kind event = END)); [|by eauto].
      destruct k; [done|by eauto]. }
    destruct Hn' as [k' Hn'].
    destruct (IH stream k' st' ltac:(lia) Hn') as [Hm Ho].
    split; [|done]. cbn [fst snd yield].
    apply marks_none; try done. by rewrite Hst.
  - by destruct (answers_bool st event result).
Qed.
End SelectMarks.




(** C2: on a well-formed stream, with a selector that answers [True] or
    [False] only, the stage marks a selected element [ENTER], its nested
    events [INSIDE] and its end [EXIT], a selected event that opens no
    element [OUTSIDE], any other event with the null mark, and returns; on
    [<a><b/><c/></a>] with the selector of [b] the two events of [<b/>] get
    [ENTER] and [EXIT] and the others the null mark. *)
Theorem select_marks_subtrees :
  (∀ (path : Selector) (stream : list MarkedEvent),
     (∀ st event result, (sel_test path st event false).2 ≠ RValue result) →
     well_formed (_unmark stream) →
     marks_of path (sel_init path) (_unmark stream)
              (SelectTransformation path stream).1
     ∧ (SelectTransformation path stream).2 = Returned)
  ∧ map fst (SelectTransformation (select_tag "b") (_mark abc)).1
    = [None; Some ENTER; Some EXIT; None; None; None]
  ∧ _unmark (SelectTransformation (select_tag "b") (_mark abc)).1 = abc.
Proof.
  split; [|by vm_compute].
  intros path stream Hbool Hwf.
  apply (select_outside path Hbool (length stream) stream 0); [done|exact Hwf].
Qed.

Lemma select_marks_subtrees_witness :
  marks_of (select_tag "b") () abc
           (SelectTransformation (select_tag "b") (_mark abc)).1.
Proof.
  refine (proj1 (proj1 select_marks_subtrees (select_tag "b") (_mark abc) _ _)).
  - intros st event result. destruct event; simpl; try done.
    by destruct (bool_decide _).
  - reflexivity.
Defined.

(** C3, as the code has it: the stage never reads the marks of its input;
    its output is that on the same events with every mark reset, and an
    event the selector does not match in the [for] loop leaves with the null
    mark, whatever mark it came with. *)
Theorem select_resets_marks (path : Selector) :
  (∀ stream : list MarkedEvent,
     SelectTransformation path stream
     = SelectTransformation path (_mark (_unmark stream)))
  ∧ (∀ st mark event,
       (sel_test path st event false).2 = RFalse →
       (select_step path (st, 0) (mark, event)).2 = (None, event)).
Proof.
  split.
  - intros stream. apply select_loop_ignores_marks.
  - intros st mark event Hfalse. unfold select_step.
    destruct (sel_test path st event false) as [st' result].
    simpl in Hfalse. by subst.
Qed.

Lemma select_resets_marks_witness :
  (select_step (select_tag "b") ((), 0)
     (Some OUTSIDE, TextEv (Str "x") nowhere)).2
  = (None, TextEv (Str "x") nowhere).
Proof.
  apply (proj2 (select_resets_marks (select_tag "b")) ()
           (Some OUTSIDE) (TextEv (Str "x") nowhere)).
  reflexivity.
Defined.

(** C3 fails as stated: in [select(text()).select(b)] on [<b/>x] the text
    is [OUTSIDE] after the first selection, the second selector does not
    match it, and it leaves the second selection with the null mark. *)
Lemma reselect_drops_mark :
  let stream := elem "b" [] [] ++ [TextEv (Str "x") nowhere] in
  let first :=
    apply_transforms [SelectTransformation select_text] (_mark stream, Returned) in
  let second :=
    apply_transforms [SelectTransformation select_text;
                      SelectTransformation (select_tag "b")]
                     (_mark stream, Returned) in
  first.1 !! 2 = Some (Some OUTSIDE, TextEv (Str "x") nowhere)
  ∧ (sel_test (select_tag "b") () (TextEv (Str "x") nowhere) false).2 = RFalse
  ∧ second.1 !! 2 = Some (None, TextEv (Str "x") nowhere)
  ∧ second.1 !! 2 ≠ first.1 !! 2.
Proof. repeat split. by vm_compute. Qed.

(** ** Wrapping *)

Section WrapFacts.
Context (element : list (Event QName)) (closing : Event QName).
Hypothesis element_closing : last element = Some closing.

(** [element[:-1]], unmarked *)
Local Abbreviation opening :=
  (map (λ prefix : Event QName, (None, prefix) : MarkedEvent) (removelast element)).

(** The [while True] loop passes a run of marked events. *)
Lemma wrap_loop_run (run rest : list MarkedEvent) :
  Forall (λ item, truthy item.1 = true) run →
  wrap_loop element true (run ++ rest)
  = yield_all run (wrap_loop element true rest).
Proof.
  induction 1 as [|[mark event] run Hm _ IH]; [by rewrite yield_all_nil|].
  simpl in *. rewrite Hm, IH. done.
Qed.

(** The [for] loop at the first event of a run. *)
Lemma wrap_loop_enter (run rest : list MarkedEvent) :
  run ≠ [] →
  Forall (λ item, truthy item.1 = true) run →
  wrap_loop element false (run ++ rest)
  = yield_all (opening ++ run) (wrap_loop element true rest).
Proof.
  intros Hne Hrun. destruct run as [|[mark event] run]; [done|].
  inversion Hrun as [|? ? Hm Hrun']; subst. simpl in Hm.
  cbn [app wrap_loop]. rewrite Hm, wrap_loop_run by done.
  unfold yield, yield_all. cbn [fst snd]. by rewrite <- app_assoc.
Qed.

(** The [while True] loop at the unmarked event that ends a run. *)
Lemma wrap_loop_leave event (rest : list MarkedEvent) :
  wrap_loop element true ((None, event) :: rest)
  = yield (None, closing) (yield (None, event) (wrap_loop element false rest)).
Proof. simpl. by rewrite element_closing. Qed.

(** With an element that has events, no exception but [StopIteration]
    leaves the body. *)
Lemma wrap_loop_outcome inrun (stream : list MarkedEvent) :
  seen_by_consumer (wrap_loop element inrun stream).2 = None.
Proof.
  revert inrun. induction stream as [|[mark event] rest IH]; intros inrun.
  { by destruct inrun. }
  simpl. destruct inrun, (truthy mark); try rewrite element_closing; apply IH.
Qed.

(** When the last event of the stream is marked, it is the last item
    yielded, and the body ends in [stream.next()]. *)
Lemma wrap_loop_last inrun (stream : list MarkedEvent) mark event :
  truthy mark = true →
  last (wrap_loop element inrun (stream ++ [(mark, event)])).1 = Some (mark, event)
  ∧ (wrap_loop element inrun (stream ++ [(mark, event)])).2 = Raised StopIteration.
Proof.
  intros Hm. revert inrun.
  induction stream as [|[mark' event'] rest IH]; intros inrun.
  { simpl. rewrite Hm. destruct inrun; simpl; [done|].
    split; [|done]. by rewrite last_snoc. }
  cbn [app wrap_loop].
  destruct inrun, (truthy mark'); try rewrite element_closing;
    unfold yield, yield_all; cbn [fst snd];
    (split; [|by apply IH]).
  - rewrite last_cons. by rewrite (proj1 (IH _)).
  - rewrite !last_cons. by rewrite (proj1 (IH _)).
  - rewrite last_app, last_cons. by rewrite (proj1 (IH _)).
  - rewrite last_cons. by rewrite (proj1 (IH _)).
Qed.

(** A run that ends the stream, after unmarked events only. *)
Lemma wrap_run_last (before run : list MarkedEvent) :
  Forall (λ item, item.1 = None) before →
  run ≠ [] →
  Forall (λ item, truthy item.1 = true) run →
  wrap_loop element false (before ++ run)
  = (before ++ opening ++ run, Raised StopIteration).
Proof.
  intros Hbefore Hne Hrun.
  induction Hbefore as [|[mark event] before Hm _ IH].
  - cbn [app]. rewrite <- (app_nil_r run) at 1.
    rewrite (wrap_loop_enter run []) by done.
    unfold yield_all. cbn [wrap_loop fst snd]. by rewrite app_nil_r.
  - simpl in Hm. subst mark. cbn [app wrap_loop truthy]. by rewrite IH.
Qed.

(** A run that an unmarked event follows. *)
Lemma wrap_run_then_unmarked (run : list MarkedEvent) event rest :
  run ≠ [] →
  Forall (λ item, truthy item.1 = true) run →
  wrap_loop element false (run ++ (None, event) :: rest)
  = yield_all (opening ++ run ++ [(None, closing); (None, event)])
              (wrap_loop element false rest).
Proof.
  intros Hne Hrun.
  rewrite wrap_loop_enter by done. rewrite wrap_loop_leave.
  unfold yield, yield_all. cbn [fst snd]. f_equal.
  by rewrite <- !app_assoc.
Qed.
End WrapFacts.

(** C10: with the events of the wrapping element at hand, a stream whose
    last event is marked makes the body end in [stream.next()], the last
    item yielded being that event and not the closing event; a run that
    ends the stream, after unmarked events only, is preceded by the opening
    events and followed by nothing; the closing event is yielded when an
    unmarked event follows the run, right before that event. *)
Theorem wrap_run_at_end (element : list (Event QName)) (closing : Event QName) :
  last element = Some closing →
  let opening := map (λ prefix, (None, prefix)) (removelast element) in
  (∀ (stream : list MarkedEvent) mark event,
     truthy mark = true →
     (WrapTransformation element (stream ++ [(mark, event)])).2 = Raised StopIteration
     ∧ last (WrapTransformation element (stream ++ [(mark, event)])).1
       = Some (mark, event))
  ∧ (∀ before run : list MarkedEvent,
       Forall (λ item, item.1 = None) before →
       run ≠ [] →
       Forall (λ item, truthy item.1 = true) run →
       WrapTransformation element (before ++ run)
       = (before ++ opening ++ run, Raised StopIteration))
  ∧ (∀ (run : list MarkedEvent) event rest,
       run ≠ [] →
       Forall (λ item, truthy item.1 = true) run →
       WrapTransformation element (run ++ (None, event) :: rest)
       = yield_all (opening ++ run ++ [(None, closing); (None, event)])
                   (WrapTransformation element rest)).
Proof.
  intros Hclosing opening. repeat split.
  - by apply (wrap_loop_last element closing).
  - by apply (wrap_loop_last element closing).
  - intros before run Hbefore Hne Hrun.
    by apply wrap_run_last.
  - intros run event rest Hne Hrun.
    by apply (wrap_run_then_unmarked element closing).
Qed.

Lemma wrap_run_at_end_witness :
  WrapTransformation (elem "strong" [] [])
    [(None, TextEv (Str "x") nowhere); (Some OUTSIDE, TextEv (Str "y") nowhere)]
  = ([(None, TextEv (Str "x") nowhere);
      (None, Start (plain "strong") [] nowhere);
      (Some OUTSIDE, TextEv (Str "y") nowhere)], Raised StopIteration).
Proof.
  refine (proj1 (proj2 (wrap_run_at_end (elem "strong" [] [])
                          (End (plain "strong") nowhere) _))
                [(None, TextEv (Str "x") nowhere)]
                [(Some OUTSIDE, TextEv (Str "y") nowhere)] _ _ _).
  - reflexivity.
  - by repeat constructor.
  - discriminate.
  - by repeat constructor.
Defined.

Lemma unwrap_yields (stream : list MarkedEvent) :
  (UnwrapTransformation stream).1
  = filter (λ item : MarkedEvent, item.1 ≠ Some ENTER ∧ item.1 ≠ Some EXIT) stream.
Proof. done. Qed.

(** Unmarked events pass [UnwrapTransformation]. *)
Lemma unwrap_unmarked (stream : list MarkedEvent) :
  Forall (λ item, item.1 = None) stream →
  (UnwrapTransformation stream).1 = stream.
Proof.
  rewrite unwrap_yields.
  induction 1 as [|item stream Hm _ IH]; [done|].
  rewrite filter_cons_True; [by rewrite IH|].
  destruct item as [mark event]. simpl in *. by subst.
Qed.

Lemma unwrap_app (xs ys : list MarkedEvent) :
  (UnwrapTransformation (xs ++ ys)).1
  = (UnwrapTransformation xs).1 ++ (UnwrapTransformation ys).1.
Proof. rewrite !unwrap_yields. apply filter_app. Qed.

(** [wrap(E).unwrap()]: the second stage reads what the first yields. *)
Lemma feed_unwrap_wrap element closing (stream : list MarkedEvent) :
  last element = Some closing →
  feed UnwrapTransformation (WrapTransformation element stream)
  = UnwrapTransformation (WrapTransformation element stream).1.
Proof.
  intros Hclosing. unfold feed, WrapTransformation.
  by rewrite (wrap_loop_outcome element closing Hclosing).
Qed.

(** C4, as the code has it: [wrap(E).unwrap()] does not give the stream
    back.  Unmarked events pass; around each run of marked events the stages
    put the opening events of [E] before it and, when an unmarked event
    follows, the closing event of [E] behind it, and of the run itself they
    keep the [INSIDE] and [OUTSIDE] events and drop [ENTER] and [EXIT]. *)
Theorem wrap_then_unwrap (element : list (Event QName)) (closing : Event QName) :
  last element = Some closing →
  let opening := map (λ prefix, (None, prefix)) (removelast element) in
  let stages := λ stream : list MarkedEvent,
    (feed UnwrapTransformation (WrapTransformation element stream)).1 in
  (∀ event rest, stages ((None, event) :: rest) = (None, event) :: stages rest)
  ∧ (∀ run event rest,
       run ≠ [] →
       Forall (λ item, truthy item.1 = true) run →
       stages (run ++ (None, event) :: rest)
       = opening ++ (UnwrapTransformation run).1
           ++ (None, closing) :: (None, event) :: stages rest)
  ∧ (∀ run,
       run ≠ [] →
       Forall (λ item, truthy item.1 = true) run →
       stages run = opening ++ (UnwrapTransformation run).1).
Proof.
  intros Hclosing opening stages. subst stages. cbn beta.
  repeat split.
  - intros event rest. rewrite !(feed_unwrap_wrap element closing) by done.
    unfold WrapTransformation. cbn [wrap_loop truthy]. unfold yield. cbn [fst].
    rewrite !unwrap_yields. by rewrite filter_cons_True.
  - intros run event rest Hne Hrun.
    rewrite !(feed_unwrap_wrap element closing) by done.
    unfold WrapTransformation.
    rewrite (wrap_run_then_unmarked element closing) by done.
    unfold yield_all. cbn [fst].
    rewrite !unwrap_app.
    rewrite (unwrap_unmarked (map _ _)) by (by apply Forall_map, Forall_true).
    rewrite <- !app_assoc. by do 2 f_equal.
  - intros run Hne Hrun.
    rewrite !(feed_unwrap_wrap element closing) by done.
    pose proof (wrap_run_last element [] run (Forall_nil_2 _) Hne Hrun) as Heq.
    cbn [app] in Heq. unfold WrapTransformation. rewrite Heq. cbn [fst].
    rewrite unwrap_app.
    by rewrite (unwrap_unmarked (map _ _)) by (by apply Forall_map, Forall_true).
Qed.

Lemma wrap_then_unwrap_witness :
  (feed UnwrapTransformation
     (WrapTransformation (elem "strong" [] [])
        [(Some ENTER, Start (plain "em") [] nowhere);
         (Some EXIT, End (plain "em") nowhere)])).1
  = [(None, Start (plain "strong") [] nowhere)].
Proof.
  refine (proj2 (proj2 (wrap_then_unwrap (elem "strong" [] [])
                          (End (plain "strong") nowhere) _))
                [(Some ENTER, Start (plain "em") [] nowhere);
                 (Some EXIT, End (plain "em") nowhere)] _ _).
  - reflexivity.
  - discriminate.
  - by repeat constructor.
Defined.

(** C4 fails as stated: [select(em).wrap(strong).unwrap()] turns
    [<b><em>x</em></b>] into [<b><strong>x</strong></b>], and the two do
    not serialize alike. *)
Lemma wrap_unwrap_changes_tags :
  let text := TextEv (Str "x") nowhere in
  let stream := elem "b" [] (elem "em" [] [text]) in
  let out :=
    Transformer_call [SelectTransformation (select_tag "em");
                      WrapTransformation (elem "strong" [] []);
                      UnwrapTransformation] stream in
  well_formed stream
  ∧ out.1 = elem "b" [] (elem "strong" [] [text])
  ∧ joined (XMLSerializer None true None stream) = "<b><em>x</em></b>"
  ∧ joined (XMLSerializer None true None out.1) = "<b><strong>x</strong></b>"
  ∧ joined (XMLSerializer None true None out.1)
    ≠ joined (XMLSerializer None true None stream).
Proof. repeat split. by vm_compute. Qed.

(** ** Injected content *)

Section InjectorFacts.
Context (content : list (Event QName)).

Local Abbreviation injected := (_inject content).

Lemma replace_woven skipping (stream : list MarkedEvent) :
  woven injected stream (replace_loop content skipping stream).1.
Proof.
  revert skipping.
  induction stream as [|[[mark|] event] rest IH]; intros skipping;
    [destruct skipping; constructor|..];
    destruct skipping; simpl.
  - apply woven_drop, IH.
  - apply woven_inject, woven_drop, IH.
  - apply woven_keep, IH.
  - apply woven_keep, IH.
Qed.

Lemma before_woven (stream : list MarkedEvent) :
  woven injected stream (BeforeTransformation_loop content stream).
Proof.
  induction stream as [|[mark event] rest IH]; [constructor|].
  simpl. case_bool_decide.
  - by apply woven_inject, woven_keep.
  - by apply woven_keep.
Qed.

Lemma after_woven inrun (stream : list MarkedEvent) :
  woven injected stream (after_loop content inrun stream).1.
Proof.
  revert inrun.
  induction stream as [|[mark event] rest IH]; intros inrun;
    [destruct inrun; constructor|].
  simpl. destruct inrun; [destruct (truthy mark)|]; simpl.
  - apply woven_keep, IH.
  - apply woven_inject, woven_keep, IH.
  - apply woven_keep, IH.
Qed.

Lemma prepend_woven (stream : list MarkedEvent) :
  woven injected stream (PrependTransformation_loop content stream).
Proof.
  induction stream as [|[mark event] rest IH]; [constructor|].
  simpl. apply woven_keep. case_bool_decide.
  - by apply woven_inject.
  - done.
Qed.

Lemma append_woven inside (stream : list MarkedEvent) :
  woven injected stream (append_loop content inside stream).1.
Proof.
  revert inside.
  induction stream as [|[mark event] rest IH]; intros inside;
    [destruct inside; constructor|].
  simpl. destruct inside; [case_bool_decide|]; simpl.
  - apply woven_inject, woven_keep, IH.
  - apply woven_keep, IH.
  - apply woven_keep, IH.
Qed.
End InjectorFacts.

(** C9: what [_inject] yields are the events of the content, each with the
    null mark, and what each of the five injectors yields is its input, with
    events dropped or not but none changed, and copies of that block put in:
    no event of the content ever carries a selection mark. *)
Theorem injected_events_unmarked (content : list (Event QName))
    (stream : list MarkedEvent) :
  Forall (λ item, item.1 = None) (_inject content)
  ∧ _unmark (_inject content) = content
  ∧ woven (_inject content) stream (ReplaceTransformation content stream).1
  ∧ woven (_inject content) stream (BeforeTransformation content stream).1
  ∧ woven (_inject content) stream (AfterTransformation content stream).1
  ∧ woven (_inject content) stream (PrependTransformation content stream).1
  ∧ woven (_inject content) stream (AppendTransformation content stream).1.
Proof.
  repeat split.
  - unfold _inject. by apply Forall_map, Forall_true.
  - unfold _unmark, _inject. rewrite map_map. apply map_id.
  - apply replace_woven.
  - apply before_woven.
  - apply after_woven.
  - apply prepend_woven.
  - apply append_woven.
Qed.

(** ** Empty tags *)

(** A [START] that the filter holds back is yielded, or turned into an
    [EMPTY], when the next event comes; so, unless a [START] ends the
    stream, the filter does what [coalesce] says, from any state. *)
Lemma EmptyTagFilter_loop_coalesce {N} (stream : list (Event N)) :
  ∀ prev,
    (∀ ev, last (pending prev ++ stream) = Some ev → kind ev ≠ START) →
    EmptyTagFilter_loop prev stream = coalesce (pending prev ++ stream).
Proof.
  induction stream as [|ev rest IH]; intros prev Hlast.
  { destruct prev as [[]|]; try done. by destruct (Hlast _ eq_refl). }
  assert (Hrest : ∀ ev', last (pending (Some ev) ++ rest) = Some ev' → kind ev' ≠ START).
  { intros ev' Hev'. apply Hlast.
    rewrite last_app. rewrite last_cons.
    destruct ev, rest; simpl in *; try done;
      try (by rewrite Hev'); try (by destruct (last rest)). }
  assert (Hgo : (if is_kind START ev then [] else [ev])
                  ++ EmptyTagFilter_loop (Some ev) rest
                = coalesce (ev :: rest)).
  { rewrite (IH (Some ev) Hrest). by destruct ev. }
  destruct prev as [[tag attrs pos| | | | | | | | | |]|];
    cbn [EmptyTagFilter_loop pending app]; try exact Hgo.
  cbn [coalesce]. destruct (is_kind END ev) eqn:He.
  - f_equal. apply (IH (Some (Empty tag attrs pos))).
    intros ev' Hev'. apply Hlast. cbn [pending app] in *.
    rewrite !last_cons. by rewrite Hev'.
  - f_equal. exact Hgo.
Qed.

(** A well-formed stream does not end with a [START]. *)
Lemma nesting_last_not_start {N} (stream : list (Event N)) :
  ∀ d ev, nesting d stream = Some 0 → last stream = Some ev → kind ev ≠ START.
Proof.
  induction stream as [|ev' rest IH]; intros d ev Hn Hlast; [done|].
  cbn [nesting] in Hn. rewrite last_cons in Hlast.
  destruct (last rest) as [ev''|] eqn:Hrest.
  - injection Hlast as ->.
    destruct (is_kind START ev'); [by eapply IH|].
    destruct (is_kind END ev'); [|by eapply IH].
    destruct d; [done|by eapply IH].
  - injection Hlast as ->. apply last_None in Hrest as ->.
    intros Hs. unfold is_kind in Hn.
    rewrite bool_decide_eq_true_2 in Hn by done. done.
Qed.

(** C5, as the code has it: on a stream that does not end with a [START]
    event, and so on every well-formed stream, [EmptyTagFilter] puts one
    [EMPTY] event, with the data and position of the [START], for each
    [START] that an [END] follows at once and passes everything else;
    [<elem></elem>] gives one [EMPTY], [<elem>x</elem>] gives [START],
    [TEXT], [END], and of two empty elements side by side none is lost. *)
Theorem empty_tag_filter_coalesces :
  (∀ (N : Type) (stream : list (Event N)),
     (∀ ev, last stream = Some ev → kind ev ≠ START) →
     EmptyTagFilter stream = coalesce stream)
  ∧ (∀ (N : Type) (stream : list (Event N)),
       well_formed stream → EmptyTagFilter stream = coalesce stream)
  ∧ EmptyTagFilter (elem "elem" [(plain "id", "1")] [])
    = [Empty (plain "elem") [(plain "id", "1")] nowhere]
  ∧ map kind (EmptyTagFilter (elem "elem" [] [TextEv (Str "x") nowhere]))
    = [START; TEXT; END]
  ∧ EmptyTagFilter (elem "a" [] [] ++ elem "b" [] [])
    = [Empty (plain "a") [] nowhere; Empty (plain "b") [] nowhere].
Proof.
  assert (H : ∀ (N : Type) (stream : list (Event N)),
            (∀ ev, last stream = Some ev → kind ev ≠ START) →
            EmptyTagFilter stream = coalesce stream).
  { intros N stream Hlast. unfold EmptyTagFilter.
    by rewrite (EmptyTagFilter_loop_coalesce stream None). }
  repeat split; try done.
  intros N stream Hwf. apply H. intros ev. by apply (nesting_last_not_start stream 0).
Qed.

Lemma empty_tag_filter_coalesces_witness :
  EmptyTagFilter (elem "elem" [] []) = coalesce (elem "elem" [] []).
Proof.
  apply (proj1 empty_tag_filter_coalesces).
  intros ev Hlast. injection Hlast as <-. discriminate.
Defined.

(** C5 fails as stated, for every input stream: of the stream that is one
    [START] event, which no [END] follows, the filter yields nothing. *)
Lemma empty_tag_filter_drops_last_start :
  let stream := [Start (plain "elem") [] nowhere] in
  EmptyTagFilter stream = []
  ∧ coalesce stream = stream
  ∧ EmptyTagFilter stream ≠ stream.
Proof. repeat split. discriminate. Qed.

(** ** Serializers *)

(** C6: the three serializers, as constructed without arguments, on the
    events of [div(a(href="foo"), br, hr(noshade=True))]. *)
Theorem serialize_div_fragment :
  joined (XMLSerializer None true None div_fragment)
  = "<div><a href=" +:+ q +:+ "foo" +:+ q +:+ "/><br/><hr noshade="
      +:+ q +:+ "True" +:+ q +:+ "/></div>"
  ∧ joined (XHTMLSerializer None true None div_fragment)
    = "<div><a href=" +:+ q +:+ "foo" +:+ q +:+ "></a><br /><hr noshade="
        +:+ q +:+ "noshade" +:+ q +:+ " /></div>"
  ∧ joined (HTMLSerializer None true div_fragment)
    = "<div><a href=" +:+ q +:+ "foo" +:+ q +:+ "></a><br><hr noshade></div>"
  ∧ (XMLSerializer None true None div_fragment).2 = Returned
  ∧ (XHTMLSerializer None true None div_fragment).2 = Returned
  ∧ (HTMLSerializer None true div_fragment).2 = Returned.
Proof. repeat split; by vm_compute. Qed.

(** ** Namespaces *)

Lemma bindings_kept_refl (m : gmap string (list string)) : bindings_kept m m.
Proof. intros key stack Hkey. exists []. by rewrite app_nil_r. Qed.

Lemma bindings_kept_trans (m1 m2 m3 : gmap string (list string)) :
  bindings_kept m1 m2 → bindings_kept m2 m3 → bindings_kept m1 m3.
Proof.
  intros H12 H23 key stack Hkey.
  destruct (H12 key stack Hkey) as [pushed Hkey2].
  destruct (H23 key _ Hkey2) as [pushed' Hkey3].
  exists (pushed ++ pushed'). by rewrite app_assoc.
Qed.

Lemma bound_kept (m m' : gmap string (list string)) (key : string) :
  bindings_kept m m' → bound m key → bound m' key.
Proof.
  intros Hkept (stack & Hkey & Hstack).
  destruct (Hkept key stack Hkey) as [pushed Hkey'].
  exists (stack ++ pushed). split; [done|]. by destruct stack.
Qed.

Lemma setdefault_append_kept (k v : string) (d : gmap string (list string)) :
  bindings_kept d (setdefault_append k v d).
Proof.
  intros key stack Hkey. unfold setdefault_append.
  destruct (decide (key = k)) as [->|Hne].
  - rewrite lookup_insert_eq, Hkey. by exists [v].
  - rewrite lookup_insert_ne by done. exists []. by rewrite app_nil_r.
Qed.

Lemma setdefault_append_bound (k v : string) (d : gmap string (list string)) :
  bound (setdefault_append k v d) k.
Proof.
  unfold bound, setdefault_append. rewrite lookup_insert_eq.
  eexists. split; [done|]. by destruct (default [] (d !! k)).
Qed.

Lemma top_bound (d : gmap string (list string)) (key : string) stack (x : string) :
  d !! key = Some stack → top stack = Ok x → bound d key.
Proof.
  intros Hkey Htop. exists stack. split; [done|]. by intros ->.
Qed.

Lemma flatten_tag_kept st st' (tag : QName) (name : string) :
  flatten_tag st tag = Ok (st', name) →
  bindings_kept (namespaces st) (namespaces st')
  ∧ bindings_kept (prefixes st) (prefixes st')
  ∧ (truthy_str (namespace tag) = true →
     bound (namespaces st') (default "" (namespace tag))).
Proof.
  unfold flatten_tag. destruct (truthy_str (namespace tag)).
  - destruct (namespaces st !! default "" (namespace tag)) as [stack|] eqn:Hns.
    + destruct (top stack) as [prefix|] eqn:Htop; [|done]. cbn. intros [= <- _].
      split; [apply bindings_kept_refl|]. split; [apply bindings_kept_refl|].
      intros _. by eapply top_bound.
    + intros [= <- _]. cbn [_push_ns _push_ns_attr namespaces prefixes].
      split; [apply setdefault_append_kept|].
      split; [apply setdefault_append_kept|].
      intros _. apply setdefault_append_bound.
  - intros [= <- _].
    split; [apply bindings_kept_refl|]. split; [apply bindings_kept_refl|done].
Qed.

Lemma flatten_attr_kept st st' (attr : QName) (name : string) :
  flatten_attr st attr = Ok (st', name) →
  bindings_kept (namespaces st) (namespaces st')
  ∧ bindings_kept (prefixes st) (prefixes st')
  ∧ (truthy_str (namespace attr) = true →
     bound (namespaces st') (default "" (namespace attr))).
Proof.
  unfold flatten_attr. destruct (truthy_str (namespace attr)).
  - destruct (namespaces st !! default "" (namespace attr)) as [stack|] eqn:Hns.
    + destruct (top stack) as [prefix|] eqn:Htop; [|done]. cbn. intros [= <- _].
      split; [apply bindings_kept_refl|]. split; [apply bindings_kept_refl|].
      intros _. by eapply top_bound.
    + cbn. intros [= <- _]. cbn [_push_ns namespaces prefixes].
      split; [apply setdefault_append_kept|].
      split; [apply setdefault_append_kept|].
      intros _. apply setdefault_append_bound.
  - intros [= <- _].
    split; [apply bindings_kept_refl|]. split; [apply bindings_kept_refl|done].
Qed.

Lemma flatten_attrs_kept (attrs : list (QName * string)) :
  ∀ st st' new_attrs,
    flatten_attrs st attrs = Ok (st', new_attrs) →
    bindings_kept (namespaces st) (namespaces st')
    ∧ bindings_kept (prefixes st) (prefixes st')
    ∧ Forall (λ item, truthy_str (namespace item.1) = true →
                      bound (namespaces st') (default "" (namespace item.1))) attrs.
Proof.
  induction attrs as [|[attr value] attrs IH]; intros st st' new_attrs.
  { intros [= <- _]. by repeat split; try apply bindings_kept_refl. }
  cbn [flatten_attrs].
  destruct (flatten_attr st attr) as [[st1 name]|] eqn:Hattr; [|done]. cbn.
  destruct (flatten_attrs st1 attrs) as [[st2 new]|] eqn:Hattrs; [|done]. cbn.
  intros [= <- _].
  destruct (flatten_attr_kept _ _ _ _ Hattr) as (Hns1 & Hpf1 & Hbound1).
  destruct (IH _ _ _ Hattrs) as (Hns2 & Hpf2 & Hbound2).
  split; [by eapply bindings_kept_trans|]. split; [by eapply bindings_kept_trans|].
  constructor; [|done]. cbn. intros Htrue. eapply bound_kept; eauto.
Qed.

Lemma flatten_start_kept st st' (tag : QName) (attrs : list (QName * string)) named :
  flatten_start st tag attrs = Ok (st', named) →
  bindings_kept (namespaces st) (namespaces st')
  ∧ bindings_kept (prefixes st) (prefixes st')
  ∧ ∀ name, name = tag ∨ name ∈ attrs.*1 →
      truthy_str (namespace name) = true →
      bound (namespaces st') (default "" (namespace name)).
Proof.
  unfold flatten_start.
  destruct (flatten_tag st tag) as [[st1 tagname]|] eqn:Htag; [|done]. cbn.
  destruct (flatten_attrs st1 attrs) as [[st2 new_attrs]|] eqn:Hattrs; [|done]. cbn.
  intros [= <- _]. cbn [namespaces prefixes].
  destruct (flatten_tag_kept _ _ _ _ Htag) as (Hns1 & Hpf1 & Hbound1).
  destruct (flatten_attrs_kept _ _ _ _ Hattrs) as (Hns2 & Hpf2 & Hbound2).
  split; [by eapply bindings_kept_trans|]. split; [by eapply bindings_kept_trans|].
  intros name [->|Hin] Htrue.
  - eapply bound_kept; eauto.
  - apply list_elem_of_fmap in Hin as (item & -> & Hin).
    by apply (proj1 (Forall_forall _ _) Hbound2 item).
Qed.

Lemma flatten_step_kept st st' (ev : Event QName) out :
  kind ev ≠ END_NS →
  flatten_step st ev = Ok (st', out) →
  bindings_kept (namespaces st) (namespaces st')
  ∧ bindings_kept (prefixes st) (prefixes st').
Proof.
  intros Hkind.
  assert (Hsame : Ok (st, out) = Ok (st', out) →
    bindings_kept (namespaces st) (namespaces st')
    ∧ bindings_kept (prefixes st) (prefixes st')).
  { intros [= <-]. split; apply bindings_kept_refl. }
  destruct ev; try done; cbn [flatten_step].
  - destruct (flatten_start st tag attrs) as [[st1 [tagname new]]|] eqn:Hstart; [|done].
    cbn. intros [= <- _]. by destruct (flatten_start_kept _ _ _ _ _ Hstart) as (? & ? & _).
  - destruct (flatten_end st tag); [|done]. cbn. intros [= <- _].
    split; apply bindings_kept_refl.
  - intros [= <- _]. split; apply bindings_kept_refl.
  - unfold flatten_start_ns.
    destruct (namespaces st !! uri).
    + cbn. intros [= <- _]. cbn [_push_ns namespaces prefixes].
      split; apply setdefault_append_kept.
    + destruct (top _); [|done]. cbn. intros [= <- _].
      cbn [_push_ns _push_ns_attr namespaces prefixes].
      split; apply setdefault_append_kept.
  - intros [= <- _]. split; apply bindings_kept_refl.
  - intros [= <- _]. split; apply bindings_kept_refl.
  - intros [= <- _]. split; apply bindings_kept_refl.
  - intros [= <- _]. split; apply bindings_kept_refl.
  - intros [= <- _]. split; apply bindings_kept_refl.
  - destruct (flatten_start st tag attrs) as [[st1 [tagname new]]|] eqn:Hstart; [|done].
    cbn. intros [= <- _]. by destruct (flatten_start_kept _ _ _ _ _ Hstart) as (? & ? & _).
Qed.

Lemma flatten_run_kept (stream : list (Event QName)) :
  Forall (λ ev, kind ev ≠ END_NS) stream →
  ∀ st st',
    flatten_run st stream = Ok st' →
    bindings_kept (namespaces st) (namespaces st')
    ∧ bindings_kept (prefixes st) (prefixes st').
Proof.
  induction 1 as [|ev rest Hev _ IH]; intros st st'.
  { intros [= <-]. split; apply bindings_kept_refl. }
  cbn [flatten_run].
  destruct (flatten_step st ev) as [[st1 out]|] eqn:Hstep; [|done]. cbn.
  intros Hrun.
  destruct (flatten_step_kept _ _ _ _ Hev Hstep) as [Hns1 Hpf1].
  destruct (IH _ _ Hrun) as [Hns2 Hpf2].
  split; by eapply bindings_kept_trans.
Qed.

(** C7, as the code has it.  The [END] branch of [NamespaceFlattener] pops
    nothing: when it yields, the bindings, the pending declarations and the
    prefix counter are what they were.  No event other than [END_NS] takes a
    binding away: over a stream without [END_NS] every stack is kept, with
    more pushed on it or not.  So the namespace of the tag and of every
    attribute of a [START], bound there if it was not before (to the empty
    prefix for the tag, to a made-up one for an attribute), is bound behind
    the [END] of the element still.  An [END_NS] does take away the binding
    of its prefix. *)
Theorem flatten_end_keeps_bindings :
  (∀ (st st' : FlattenerState) (data : QName) (pos : Pos) (out : list (Event string)),
     flatten_step st (End data pos) = Ok (st', out) →
     st' = st ∧ ∃ tagname, out = [End tagname pos])
  ∧ (∀ (st st' : FlattenerState) (stream : list (Event QName)),
       Forall (λ ev, kind ev ≠ END_NS) stream →
       flatten_run st stream = Ok st' →
       bindings_kept (namespaces st) (namespaces st')
       ∧ bindings_kept (prefixes st) (prefixes st'))
  ∧ (∀ (st st' : FlattenerState) (tag : QName) (attrs : list (QName * string))
       (body : list (Event QName)) (pos pos' : Pos) (name : QName),
       name = tag ∨ name ∈ attrs.*1 →
       truthy_str (namespace name) = true →
       Forall (λ ev, kind ev ≠ END_NS) body →
       flatten_run st (Start tag attrs pos :: body ++ [End tag pos']) = Ok st' →
       bound (namespaces st') (default "" (namespace name)))
  ∧ (∀ (st : FlattenerState) (prefix uri : string) (pos : Pos),
       prefixes st !! prefix = Some [uri] →
       namespaces st !! uri = Some [prefix] →
       ∃ st',
         flatten_step st (EndNs prefix pos) = Ok (st', [])
         ∧ namespaces st' = delete uri (namespaces st)
         ∧ prefixes st' = delete prefix (prefixes st)).
Proof.
  split; [|split; [|split]].
  - intros st st' data pos out. cbn [flatten_step].
    destruct (flatten_end st data) as [tagname|exc]; [|done].
    cbn. intros [= <- <-]. eauto.
  - intros st st' stream Hstream Hrun. by eapply flatten_run_kept.
  - intros st st' tag attrs body pos pos' name Hname Htrue Hbody.
    cbn [flatten_run flatten_step].
    destruct (flatten_start st tag attrs) as [[st1 [tagname new]]|] eqn:Hstart; [|done].
    cbn. intros Hrun.
    destruct (flatten_start_kept _ _ _ _ _ Hstart) as (_ & _ & Hbound).
    assert (Hrest : Forall (λ ev : Event QName, kind ev ≠ END_NS)
                      (body ++ [End tag pos'])).
    { apply Forall_app. split; [done|]. by constructor. }
    destruct (flatten_run_kept _ Hrest _ _ Hrun) as [Hns _].
    eapply bound_kept; [exact Hns|]. by apply Hbound.
  - intros st prefix uri pos Hprefix Huri.
    cbn [flatten_step]. unfold flatten_end_ns, getitem. rewrite Hprefix. cbn.
    rewrite Huri. cbn. eexists. split; [done|]. by cbn.
Qed.

Lemma flatten_end_keeps_bindings_witness :
  let a := mkQName (Some "NS1") "a" in
  let stream := [Start a [] nowhere] ++ [] ++ [End a nowhere] in
  namespaces (flattener_init None) !! "NS1" = None
  ∧ match flatten_run (flattener_init None) stream with
    | Ok st' => bound (namespaces st') "NS1"
    | Error _ => False
    end.
Proof.
  intros a stream. split; [by vm_compute|].
  destruct (flatten_run (flattener_init None) stream) as [st'|exc] eqn:Hrun.
  - refine (proj1 (proj2 (proj2 flatten_end_keeps_bindings))
              (flattener_init None) st' a [] [] nowhere nowhere a _ _ _ Hrun).
    + by left.
    + reflexivity.
    + constructor.
  - vm_compute in Hrun. discriminate.
Defined.

(** C7 fails as stated: in the well-formed stream [<a/><b/>], both in the
    namespace [NS1] that nothing declares, the binding made up at the start
    of [a] is there behind its end, and [b], which is no part of [a], is
    written without a declaration. *)
Lemma flatten_binding_outlives_element :
  let a := mkQName (Some "NS1") "a" in
  let b := mkQName (Some "NS1") "b" in
  let stream := [Start a [] nowhere; End a nowhere;
                 Start b [] nowhere; End b nowhere] in
  well_formed stream
  ∧ namespaces (flattener_init None) !! "NS1" = None
  ∧ namespaces <$> flatten_run (flattener_init None) (take 1 stream)
    = Ok (<["NS1" := [""]]> (namespaces (flattener_init None)))
  ∧ namespaces <$> flatten_run (flattener_init None) (take 2 stream)
    = Ok (<["NS1" := [""]]> (namespaces (flattener_init None)))
  ∧ NamespaceFlattener None stream
    = ([Start "a" [("xmlns", "NS1")] nowhere; End "a" nowhere;
        Start "b" [] nowhere; End "b" nowhere], Returned).
Proof. repeat split; by vm_compute. Qed.

(** The stripper treats each event by itself. *)
Lemma NamespaceStripper_app ns (xs ys : list (Event QName)) :
  NamespaceStripper ns (xs ++ ys) = NamespaceStripper ns xs ++ NamespaceStripper ns ys.
Proof. unfold NamespaceStripper. by rewrite map_app, concat_app. Qed.

Lemma NamespaceStripper_cons ns ev (rest : list (Event QName)) :
  NamespaceStripper ns (ev :: rest) = strip_event ns ev ++ NamespaceStripper ns rest.
Proof. done. Qed.

(** C8, as the code has it: the stripper treats each event by itself.  For
    an element whose tag has a namespace other than the one kept it yields
    nothing for the start (or empty) and end events, so none of the
    attributes either, and for the events between them what it yields for
    them anywhere.  That is: an event that is neither a tag nor a namespace
    event as it is; the tags of an element that is kept with the tag made
    its local name, a plain string, and without the attributes of another
    namespace; nothing for the tags of an element that is not kept and for
    [START_NS] and [END_NS]. *)
Theorem strip_keeps_children (ns : option string) :
  (∀ before start children stop after,
     (∃ tag attrs pos, start = Start tag attrs pos ∧ not_kept ns tag = true) →
     (∃ tag pos, stop = End tag pos ∧ not_kept ns tag = true) →
     NamespaceStripper ns (before ++ start :: children ++ stop :: after)
     = NamespaceStripper ns before ++ NamespaceStripper ns children
         ++ NamespaceStripper ns after)
  ∧ (∀ before tag attrs pos after,
       not_kept ns tag = true →
       NamespaceStripper ns (before ++ Empty tag attrs pos :: after)
       = NamespaceStripper ns before ++ NamespaceStripper ns after)
  ∧ (∀ ev rest,
       kind ev ∉ [START; EMPTY; END; START_NS; END_NS] →
       NamespaceStripper ns (ev :: rest)
       = rename Qualified ev :: NamespaceStripper ns rest)
  ∧ (∀ tag attrs pos rest,
       not_kept ns tag = false →
       NamespaceStripper ns (Start tag attrs pos :: rest)
       = Start (Unicode (localname tag))
           (map (λ item, (Qualified item.1, item.2))
                (filter (λ item, not_kept ns item.1 = false) attrs)) pos
           :: NamespaceStripper ns rest
       ∧ NamespaceStripper ns (Empty tag attrs pos :: rest)
         = Empty (Unicode (localname tag))
             (map (λ item, (Qualified item.1, item.2))
                  (filter (λ item, not_kept ns item.1 = false) attrs)) pos
             :: NamespaceStripper ns rest
       ∧ NamespaceStripper ns (End tag pos :: rest)
         = End (Unicode (localname tag)) pos :: NamespaceStripper ns rest)
  ∧ (∀ ev rest,
       kind ev ∈ [START_NS; END_NS] →
       NamespaceStripper ns (ev :: rest) = NamespaceStripper ns rest).
Proof.
  assert (Hdrop : ∀ tag attrs pos,
            not_kept ns tag = true →
            strip_event ns (Start tag attrs pos) = []
            ∧ strip_event ns (Empty tag attrs pos) = []
            ∧ strip_event ns (End tag pos) = []).
  { intros tag attrs pos Hnk. unfold not_kept in Hnk. cbn [strip_event].
    by rewrite Hnk. }
  assert (Hattrs : ∀ attrs : list (QName * string),
            strip_attrs ns attrs = filter (λ item, not_kept ns item.1 = false) attrs).
  { intros attrs. unfold strip_attrs. apply list_filter_iff. intros item.
    unfold not_kept. destruct (truthy_str (namespace item.1)); [|done].
    cbn. by destruct (in_namespace ns item.1). }
  split; [|split; [|split; [|split]]].
  - intros before start children stop after
      (tag & attrs & pos & -> & Hstart) (tag' & pos' & -> & Hstop).
    rewrite NamespaceStripper_app, NamespaceStripper_cons,
      NamespaceStripper_app, NamespaceStripper_cons.
    rewrite (proj1 (Hdrop tag attrs pos Hstart)).
    rewrite (proj2 (proj2 (Hdrop tag' [] pos' Hstop))). done.
  - intros before tag attrs pos after Hnk.
    rewrite NamespaceStripper_app, NamespaceStripper_cons.
    by rewrite (proj1 (proj2 (Hdrop tag attrs pos Hnk))).
  - intros ev rest Hkind. rewrite NamespaceStripper_cons.
    destruct ev; try done; exfalso; apply Hkind; cbn [kind];
      rewrite !elem_of_cons; tauto.
  - intros tag attrs pos rest Hkept. rewrite !NamespaceStripper_cons.
    unfold not_kept in Hkept. cbn [strip_event]. rewrite Hkept, Hattrs. done.
  - intros ev rest Hkind. rewrite NamespaceStripper_cons.
    destruct ev; try done; exfalso; revert Hkind; cbn [kind];
      rewrite !elem_of_cons, elem_of_nil; intuition congruence.
Qed.

(** [<two:item>x</two:item>], in a namespace that is not kept. *)
Lemma strip_keeps_children_witness :
  let item := mkQName (Some "NS2") "item" in
  NamespaceStripper (Some "NS1")
    [Start item [] nowhere; TextEv (Str "x") nowhere; End item nowhere]
  = [TextEv (Str "x") nowhere].
Proof.
  intros item.
  refine (proj1 (strip_keeps_children (Some "NS1"))
            [] (Start item [] nowhere) [TextEv (Str "x") nowhere]
            (End item nowhere) [] _ _).
  - exists item, [], nowhere. by split.
  - exists item, nowhere. by split.
Defined.

(** C8 fails where it says that the child events come out unmodified: of
    [<two:item><doc xmlns="NS1" two:x="1" y="2"/></two:item>], with [NS1]
    kept, the start tag of the child that is kept leaves as [doc], a plain
    string, and without its attribute [two:x]; the event as it went in is
    not in the output. *)
Lemma strip_modifies_kept_children :
  let item := mkQName (Some "NS2") "item" in
  let doc := mkQName (Some "NS1") "doc" in
  let child :=
    Start doc [(mkQName (Some "NS2") "x", "1"); (mkQName None "y", "2")] nowhere in
  not_kept (Some "NS1") item = true
  ∧ not_kept (Some "NS1") doc = false
  ∧ NamespaceStripper (Some "NS1")
      [Start item [] nowhere; child; End doc nowhere; End item nowhere]
    = [Start (Unicode "doc") [(Qualified (mkQName None "y"), "2")] nowhere;
       End (Unicode "doc") nowhere]
  ∧ rename Qualified child
    ∉ NamespaceStripper (Some "NS1")
        [Start item [] nowhere; child; End doc nowhere; End item nowhere].
Proof.
  intros item doc child.
  assert (Hout :
    NamespaceStripper (Some "NS1")
      [Start item [] nowhere; child; End doc nowhere; End item nowhere]
    = [Start (Unicode "doc") [(Qualified (mkQName None "y"), "2")] nowhere;
       End (Unicode "doc") nowhere]) by by vm_compute.
  split; [by vm_compute|]. split; [by vm_compute|]. split; [exact Hout|].
  rewrite Hout. intros Hin. rewrite !elem_of_cons, elem_of_nil in Hin.
  unfold child in Hin. cbn [rename] in Hin.
  destruct Hin as [Heq|[Heq|[]]]; discriminate.
Qed.

(** * Further properties of the stages *)

(** ** Stages that keep or drop events *)

Lemma feed_returned {A B} (stage : list A → Gen B) (items : list A) :
  feed stage (items, Returned) = stage items.
Proof. done. Qed.

(** X1: [remove()], [empty()] and [unwrap()] are idempotent: applied to
    their own output they change nothing. *)
Theorem remove_empty_unwrap_idempotent (stream : list MarkedEvent) :
  feed RemoveTransformation (RemoveTransformation stream) = RemoveTransformation stream
  ∧ feed EmptyTransformation (EmptyTransformation stream) = EmptyTransformation stream
  ∧ feed UnwrapTransformation (UnwrapTransformation stream) = UnwrapTransformation stream.
Proof.
  unfold RemoveTransformation, EmptyTransformation, UnwrapTransformation.
  rewrite !feed_returned.
  repeat split; f_equal; apply list_filter_filter_l; naive_solver.
Qed.

(** X2: [empty()] and [unwrap()], in either order, are [remove()]: between
    them they drop every event with a mark and keep the others. *)
Theorem empty_unwrap_is_remove (stream : list MarkedEvent) :
  feed UnwrapTransformation (EmptyTransformation stream) = RemoveTransformation stream
  ∧ feed EmptyTransformation (UnwrapTransformation stream) = RemoveTransformation stream.
Proof.
  unfold RemoveTransformation, EmptyTransformation, UnwrapTransformation.
  rewrite !feed_returned.
  split; f_equal; rewrite list_filter_filter; apply list_filter_iff;
    intros [[[]|] event]; simpl; intuition congruence.
Qed.

(** X3: [invert()] keeps every event in place and leaves only the null mark
    and [OUTSIDE]; applied twice it does not give the selection back, what
    was selected is then [OUTSIDE] throughout; applied three times it is
    [invert()] once. *)
Theorem invert_flattens_selection (stream : list MarkedEvent) :
  _unmark (InvertTransformation stream).1 = _unmark stream
  ∧ Forall (λ item, item.1 = None ∨ item.1 = Some OUTSIDE)
           (InvertTransformation stream).1
  ∧ (feed InvertTransformation (InvertTransformation stream)).1
    = map (λ item, (if selected item then Some OUTSIDE else None, item.2)) stream
  ∧ feed InvertTransformation (feed InvertTransformation (InvertTransformation stream))
    = InvertTransformation stream.
Proof.
  unfold InvertTransformation. rewrite !feed_returned. cbn [fst].
  repeat split.
  - unfold _unmark. rewrite map_map. apply map_ext. by intros [[] ?].
  - apply Forall_map, Forall_true. intros [[] ?]; simpl; auto.
  - rewrite map_map. apply map_ext. by intros [[] ?].
  - f_equal. rewrite !map_map. apply map_ext. by intros [[] ?].
Qed.

Section Unselected.
Context (element content : list (Event QName)).

Lemma wrap_unselected inrun (stream : list MarkedEvent) :
  Forall (λ item, item.1 = None) stream →
  inrun = false →
  wrap_loop element inrun stream = (stream, Returned).
Proof.
  intros Hnone ->. induction Hnone as [|[mark event] rest Hm _ IH]; [done|].
  simpl in Hm. subst. simpl. by rewrite IH.
Qed.

Lemma replace_unselected (stream : list MarkedEvent) :
  Forall (λ item, item.1 = None) stream →
  replace_loop content false stream = (stream, Returned).
Proof.
  induction 1 as [|[mark event] rest Hm _ IH]; [done|].
  simpl in Hm. subst. simpl. by rewrite IH.
Qed.

Lemma after_unselected (stream : list MarkedEvent) :
  Forall (λ item, item.1 = None) stream →
  after_loop content false stream = (stream, Returned).
Proof.
  induction 1 as [|[mark event] rest Hm _ IH]; [done|].
  simpl in Hm. subst. simpl. by rewrite IH.
Qed.

Lemma append_unselected (stream : list MarkedEvent) :
  Forall (λ item, item.1 = None) stream →
  append_loop content false stream = (stream, Returned).
Proof.
  induction 1 as [|[mark event] rest Hm _ IH]; [done|].
  simpl in Hm. subst. simpl. by rewrite IH.
Qed.

Lemma before_unselected (stream : list MarkedEvent) :
  Forall (λ item, item.1 = None) stream →
  BeforeTransformation_loop content stream = stream.
Proof.
  induction 1 as [|[mark event] rest Hm _ IH]; [done|].
  simpl in Hm. subst. simpl. by rewrite IH.
Qed.

Lemma prepend_unselected (stream : list MarkedEvent) :
  Forall (λ item, item.1 = None) stream →
  PrependTransformation_loop content stream = stream.
Proof.
  induction 1 as [|[mark event] rest Hm _ IH]; [done|].
  simpl in Hm. subst. simpl. by rewrite IH.
Qed.

Lemma filter_unselected (P : MarkedEvent → Prop) `{∀ item, Decision (P item)}
    (stream : list MarkedEvent) :
  (∀ event, P (None, event)) →
  Forall (λ item, item.1 = None) stream →
  filter P stream = stream.
Proof.
  intros HP. induction 1 as [|[mark event] rest Hm _ IH]; [done|].
  simpl in Hm. subst. rewrite filter_cons_True by done. by rewrite IH.
Qed.
End Unselected.

(** X4: where nothing is selected, nothing is done: on a stream whose marks
    are all null each of [wrap], [replace], [before], [after], [prepend],
    [append], [remove], [empty] and [unwrap] yields the stream as it is and
    returns, whatever the element or content given. *)
Theorem unselected_stream_unchanged (element content : list (Event QName))
    (stream : list MarkedEvent) :
  Forall (λ item, item.1 = None) stream →
  WrapTransformation element stream = (stream, Returned)
  ∧ ReplaceTransformation content stream = (stream, Returned)
  ∧ BeforeTransformation content stream = (stream, Returned)
  ∧ AfterTransformation content stream = (stream, Returned)
  ∧ PrependTransformation content stream = (stream, Returned)
  ∧ AppendTransformation content stream = (stream, Returned)
  ∧ RemoveTransformation stream = (stream, Returned)
  ∧ EmptyTransformation stream = (stream, Returned)
  ∧ UnwrapTransformation stream = (stream, Returned).
Proof.
  intros Hnone. repeat split.
  - by apply wrap_unselected.
  - by apply replace_unselected.
  - unfold BeforeTransformation. by rewrite before_unselected.
  - by apply after_unselected.
  - unfold PrependTransformation. by rewrite prepend_unselected.
  - by apply append_unselected.
  - unfold RemoveTransformation. by rewrite filter_unselected.
  - unfold EmptyTransformation. by rewrite filter_unselected.
  - unfold UnwrapTransformation. by rewrite filter_unselected.
Qed.

Lemma unselected_stream_unchanged_witness :
  WrapTransformation (elem "strong" [] []) (_mark abc) = (_mark abc, Returned)
  ∧ ReplaceTransformation [TextEv (Str "x") nowhere] (_mark abc)
    = (_mark abc, Returned).
Proof.
  assert (Hnone : Forall (λ item : MarkedEvent, item.1 = None) (_mark abc))
    by (by repeat constructor).
  split.
  - exact (proj1 (unselected_stream_unchanged (elem "strong" [] []) [] (_mark abc) Hnone)).
  - exact (proj1 (proj2 (unselected_stream_unchanged
                           [] [TextEv (Str "x") nowhere] (_mark abc) Hnone))).
Defined.

(** ** Selection *)

Lemma select_loop_keeps_events (path : Selector) (stream : list MarkedEvent) :
  (∀ st event result, (sel_test path st event false).2 ≠ RValue result) →
  ∀ c, _unmark (select_loop path c stream).1 = _unmark stream.
Proof.
  intros Hbool. induction stream as [|[mark event] rest IH]; intros [st depth]; [done|].
  rewrite select_loop_cons. cbn [yield fst _unmark map].
  fold (_unmark rest). fold (_unmark (select_loop path
    (select_step path (st, depth) (mark, event)).1 rest).1).
  rewrite IH. f_equal.
  unfold select_step. destruct depth as [|depth].
  - pose proof (Hbool st event) as Hb.
    destruct (sel_test path st event false) as [st' [| |result]]; simpl in *.
    + by destruct (is_kind START event).
    + done.
    + by destruct (Hb result).
  - simpl. by repeat case_match.
Qed.

(** X5: selecting alone changes no event: with a selector that answers
    [True] or [False] only, the stage yields the events of its input, in
    order, on any stream, well formed or not; a transformer that only
    selects gives the stream back. *)
Theorem select_keeps_events (path : Selector) :
  (∀ st event result, (sel_test path st event false).2 ≠ RValue result) →
  (∀ stream : list MarkedEvent,
     _unmark (SelectTransformation path stream).1 = _unmark stream)
  ∧ (∀ stream : list (Event QName),
       (Transformer_call [SelectTransformation path] stream).1 = stream).
Proof.
  intros Hbool. split.
  - intros stream. by apply select_loop_keeps_events.
  - intros stream. unfold Transformer_call, apply_transforms. cbn [foldl].
    rewrite feed_returned.
    assert (Hseen : seen_by_consumer (SelectTransformation path (_mark stream)).2 = None).
    { unfold SelectTransformation. rewrite select_loop_outcome. by case_match. }
    unfold feed. rewrite Hseen. cbn [fst].
    unfold SelectTransformation. rewrite select_loop_keeps_events by done.
    unfold _unmark, _mark. rewrite map_map. apply map_id.
Qed.

Lemma select_keeps_events_witness :
  (Transformer_call [SelectTransformation (select_tag "b")] abc).1 = abc.
Proof.
  refine (proj2 (select_keeps_events (select_tag "b") _) abc).
  intros st event result. destruct event; simpl; try done.
  by destruct (bool_decide _).
Defined.

(** A well-formed run of events leaves the depth where it was. *)
Lemma nesting_app {N} (body rest : list (Event N)) :
  ∀ d e k, nesting d body = Some e →
           nesting (d + k) (body ++ rest) = nesting (e + k) rest.
Proof.
  induction body as [|ev body IH]; intros d e k Hn.
  { simpl in Hn. by injection Hn as ->. }
  cbn [app nesting] in *.
  destruct (is_kind START ev); [by apply (IH (S d))|].
  destruct (is_kind END ev); [|by apply IH].
  destruct d as [|d]; [done|]. by apply (IH d).
Qed.

Lemma nesting_balanced {N} (body rest : list (Event N)) k :
  nesting 0 body = Some 0 → nesting k (body ++ rest) = nesting k rest.
Proof. intros Hbody. exact (nesting_app body rest 0 0 k Hbody). Qed.

Lemma nesting_cons_irrelevant {N} (ev : Event N) (xs ys : list (Event N)) :
  (∀ k, nesting k xs = nesting k ys) →
  ∀ k, nesting k (ev :: xs) = nesting k (ev :: ys).
Proof.
  intros Heq k. cbn [nesting]. rewrite !Heq. destruct k; by rewrite ?Heq.
Qed.

Section DropMarked.
Context (path : Selector) (keep : Mark → bool).
Hypothesis keep_unmarked : keep None = true.
Hypothesis keep_tags_together : keep (Some ENTER) = keep (Some EXIT).
Hypothesis keep_outside_or_no_end :
  keep (Some OUTSIDE) = true
  ∨ ∀ st event, (sel_test path st event false).2 = RTrue → kind event ≠ END.

Local Abbreviation kept :=
  (filter (λ item : MarkedEvent, keep item.1 = true)).

Lemma kept_inside (body : list (Event QName)) :
  kept (map (λ event, (Some INSIDE, event)) body)
  = if keep (Some INSIDE) then map (λ event, (Some INSIDE, event)) body else [].
Proof.
  induction body as [|event body IH]; [by destruct (keep (Some INSIDE))|].
  cbn [map]. destruct (keep (Some INSIDE)) eqn:Hk.
  - rewrite filter_cons_True by (simpl; by rewrite Hk). f_equal. exact IH.
  - rewrite filter_cons_False by (simpl; by rewrite Hk). exact IH.
Qed.

(** Dropping marked events after a selection, the tags of a selected
    element together or not at all, leaves the nesting as it was. *)
Lemma kept_nesting st events out :
  marks_of path st events out →
  ∀ k, nesting k (_unmark (kept out)) = nesting k events.
Proof.
  induction 1 as [st|st start body stop rest out Hstart Htest Hbody Hstop _ IH
                    |st event rest out Hkind Htest _ IH
                    |st event rest out Htest _ IH]; intros k.
  - done.
  - assert (Hfull : nesting k (start :: body ++ stop :: rest) = nesting k rest).
    { cbn [nesting]. unfold is_kind. rewrite bool_decide_eq_true_2 by done.
      rewrite (nesting_balanced body (stop :: rest) (S k) Hbody).
      cbn [nesting]. unfold is_kind. rewrite Hstop.
      rewrite bool_decide_eq_false_2 by done.
      by rewrite bool_decide_eq_true_2 by done. }
    rewrite Hfull, <- IH.
    rewrite filter_cons, filter_app, filter_cons, kept_inside. cbn [fst].
    rewrite <- keep_tags_together.
    destruct (keep (Some ENTER)), (keep (Some INSIDE));
      rewrite ?decide_True by done; rewrite ?decide_False by done;
      unfold _unmark; cbn [map app snd]; rewrite ?map_app, ?map_map;
      cbn [map snd]; rewrite ?map_id.
    + cbn [nesting]. unfold is_kind. rewrite bool_decide_eq_true_2 by done.
      rewrite (nesting_balanced body _ (S k) Hbody).
      cbn [nesting]. unfold is_kind. rewrite Hstop.
      rewrite bool_decide_eq_false_2 by done.
      by rewrite bool_decide_eq_true_2 by done.
    + cbn [nesting]. unfold is_kind. rewrite bool_decide_eq_true_2 by done.
      rewrite Hstop. rewrite bool_decide_eq_false_2 by done.
      by rewrite bool_decide_eq_true_2 by done.
    + by rewrite (nesting_balanced body _ k Hbody).
    + done.
  - rewrite filter_cons. cbn [fst]. destruct (keep (Some OUTSIDE)) eqn:Hk.
    + rewrite decide_True by done. unfold _unmark. cbn [map snd].
      by apply nesting_cons_irrelevant.
    + rewrite decide_False by done. rewrite IH.
      destruct keep_outside_or_no_end as [Hko|Hne]; [congruence|].
      cbn [nesting]. unfold is_kind.
      rewrite bool_decide_eq_false_2 by done.
      by rewrite bool_decide_eq_false_2 by (by apply (Hne st)).
  - rewrite filter_cons. cbn [fst]. rewrite decide_True by done.
    unfold _unmark. cbn [map snd]. by apply nesting_cons_irrelevant.
Qed.
End DropMarked.

(** A selection on a well-formed stream, then a stage that returns. *)
Lemma select_then_stage (path : Selector) (stage : Stage) (stream : list (Event QName)) :
  (∀ st event result, (sel_test path st event false).2 ≠ RValue result) →
  well_formed stream →
  (∀ items, (stage items).2 = Returned) →
  (Transformer_call [SelectTransformation path; stage] stream).1
  = _unmark (stage (SelectTransformation path (_mark stream)).1).1
  ∧ marks_of path (sel_init path) stream (SelectTransformation path (_mark stream)).1.
Proof.
  intros Hbool Hwf Hret.
  assert (Hunmark : _unmark (_mark stream) = stream).
  { unfold _unmark, _mark. rewrite map_map. apply map_id. }
  destruct (select_outside path Hbool (length (_mark stream)) (_mark stream) 0
              (sel_init path) ltac:(done) ltac:(by rewrite Hunmark)) as [Hm Ho].
  rewrite Hunmark in Hm. split; [|exact Hm].
  unfold Transformer_call, apply_transforms. cbn [foldl].
  rewrite feed_returned. unfold SelectTransformation.
  unfold feed at 2. rewrite Ho. cbn [seen_by_consumer].
  unfold feed. by rewrite Hret.
Qed.

(** X6: on a well-formed stream, with a selector that answers [True] or
    [False] only, [select(P).unwrap()] gives a well-formed stream; so do
    [select(P).remove()] and [select(P).empty()] when the selector never
    matches an [END] event. *)
Theorem select_then_drop_well_formed (path : Selector) (stream : list (Event QName)) :
  (∀ st event result, (sel_test path st event false).2 ≠ RValue result) →
  well_formed stream →
  well_formed (Transformer_call [SelectTransformation path; UnwrapTransformation] stream).1
  ∧ ((∀ st event, (sel_test path st event false).2 = RTrue → kind event ≠ END) →
     well_formed (Transformer_call [SelectTransformation path; RemoveTransformation] stream).1
     ∧ well_formed (Transformer_call [SelectTransformation path; EmptyTransformation] stream).1).
Proof.
  intros Hbool Hwf. split; [|intros Hend; split].
  - destruct (select_then_stage path UnwrapTransformation stream Hbool Hwf
                ltac:(done)) as [-> Hm].
    unfold well_formed, UnwrapTransformation. cbn [fst].
    rewrite <- Hwf.
    rewrite <- (kept_nesting path
                  (λ mark, bool_decide (mark ≠ Some ENTER ∧ mark ≠ Some EXIT))
                  ltac:(done) ltac:(done) ltac:(by left) _ _ _ Hm 0).
    do 2 f_equal. apply list_filter_iff. intros item.
    by rewrite bool_decide_eq_true.
  - destruct (select_then_stage path RemoveTransformation stream Hbool Hwf
                ltac:(done)) as [-> Hm].
    unfold well_formed, RemoveTransformation. cbn [fst].
    rewrite <- Hwf.
    rewrite <- (kept_nesting path (λ mark, bool_decide (mark = None))
                  ltac:(done) ltac:(done) ltac:(by right) _ _ _ Hm 0).
    do 2 f_equal. apply list_filter_iff. intros item.
    by rewrite bool_decide_eq_true.
  - destruct (select_then_stage path EmptyTransformation stream Hbool Hwf
                ltac:(done)) as [-> Hm].
    unfold well_formed, EmptyTransformation. cbn [fst].
    rewrite <- Hwf.
    rewrite <- (kept_nesting path
                  (λ mark, bool_decide (mark ≠ Some INSIDE ∧ mark ≠ Some OUTSIDE))
                  ltac:(done) ltac:(done) ltac:(by right) _ _ _ Hm 0).
    do 2 f_equal. apply list_filter_iff. intros item.
    by rewrite bool_decide_eq_true.
Qed.

Lemma select_then_drop_well_formed_witness :
  well_formed (Transformer_call [SelectTransformation (select_tag "b");
                                 UnwrapTransformation] abc).1
  ∧ well_formed (Transformer_call [SelectTransformation (select_tag "b");
                                   RemoveTransformation] abc).1.
Proof.
  assert (Hbool : ∀ st event result,
            (sel_test (select_tag "b") st event false).2 ≠ RValue result).
  { intros st event result. destruct event; simpl; try done.
    by destruct (bool_decide _). }
  assert (Hwf : well_formed abc) by reflexivity.
  pose proof (select_then_drop_well_formed (select_tag "b") abc Hbool Hwf) as [Hu Hre].
  split; [exact Hu|]. apply Hre.
  intros st event Htrue. destruct event; simpl in *; try done.
Defined.

(** ** Injectors, run by run *)

Section InjectorRuns.
Context (content : list (Event QName)).

Lemma after_loop_run (run rest : list MarkedEvent) :
  Forall (λ item, selected item = true) run →
  after_loop content true (run ++ rest)
  = yield_all run (after_loop content true rest).
Proof.
  induction 1 as [|[mark event] run Hm _ IH]; [by rewrite yield_all_nil|].
  unfold selected in Hm. simpl in *. by rewrite Hm, IH.
Qed.

Lemma after_loop_enter (run rest : list MarkedEvent) :
  run ≠ [] →
  Forall (λ item, selected item = true) run →
  after_loop content false (run ++ rest)
  = yield_all run (after_loop content true rest).
Proof.
  intros Hne Hrun. destruct run as [|[mark event] run]; [done|].
  inversion Hrun as [|? ? Hm Hrun']; subst. unfold selected in Hm. simpl in Hm.
  cbn [app after_loop]. by rewrite Hm, after_loop_run.
Qed.

Lemma replace_loop_run (run rest : list MarkedEvent) :
  Forall (λ item, selected item = true) run →
  replace_loop content true (run ++ rest) = replace_loop content true rest.
Proof.
  induction 1 as [|[[mark|] event] run Hm _ IH]; [done| |done].
  simpl. exact IH.
Qed.

Lemma replace_loop_unmarked skipping (stream : list MarkedEvent) :
  Forall (λ item, item.1 = None) (replace_loop content skipping stream).1.
Proof.
  revert skipping.
  induction stream as [|[[mark|] event] rest IH]; intros skipping;
    [by destruct skipping|..]; destruct skipping; simpl; try apply IH.
  - apply Forall_app. split; [|apply IH].
    unfold _inject. by apply Forall_map, Forall_true.
  - by constructor.
  - by constructor.
Qed.

Lemma append_loop_inside (inside rest : list MarkedEvent) :
  Forall (λ item, item.1 ≠ Some EXIT) inside →
  append_loop content true (inside ++ rest)
  = yield_all inside (append_loop content true rest).
Proof.
  induction 1 as [|[mark event] inside Hm _ IH]; [by rewrite yield_all_nil|].
  simpl in *. rewrite bool_decide_eq_false_2 by done. by rewrite IH.
Qed.

Lemma append_loop_no_enter (stream : list MarkedEvent) :
  Forall (λ item, item.1 ≠ Some ENTER) stream →
  append_loop content false stream = (stream, Returned).
Proof.
  induction 1 as [|[mark event] rest Hm _ IH]; [done|].
  simpl in *. rewrite bool_decide_eq_false_2 by done. by rewrite IH.
Qed.

Lemma before_loop_length (stream : list MarkedEvent) :
  length (BeforeTransformation_loop content stream)
  = length stream + length (filter (λ item, entering item = true) stream) * length content.
Proof.
  induction stream as [|[mark event] rest IH]; [done|].
  cbn [BeforeTransformation_loop]. rewrite length_app. cbn [length].
  rewrite IH, filter_cons.
  change (bool_decide (mark = Some ENTER ∨ mark = Some OUTSIDE))
    with (entering (mark, event)).
  destruct (entering (mark, event)) eqn:He.
  - rewrite decide_True by done. unfold _inject. rewrite length_map.
    cbn [length]. lia.
  - rewrite decide_False by done. cbn [length]. lia.
Qed.

Lemma prepend_loop_length (stream : list MarkedEvent) :
  length (PrependTransformation_loop content stream)
  = length stream + length (filter (λ item, entering item = true) stream) * length content.
Proof.
  induction stream as [|[mark event] rest IH]; [done|].
  cbn [PrependTransformation_loop length]. rewrite length_app.
  rewrite IH, filter_cons.
  change (bool_decide (mark = Some ENTER ∨ mark = Some OUTSIDE))
    with (entering (mark, event)).
  destruct (entering (mark, event)) eqn:He.
  - rewrite decide_True by done. unfold _inject. rewrite length_map.
    cbn [length]. lia.
  - rewrite decide_False by done. cbn [length]. lia.
Qed.

Lemma before_loop_sublist (stream : list MarkedEvent) :
  stream `sublist_of` BeforeTransformation_loop content stream.
Proof.
  induction stream as [|[mark event] rest IH]; [done|].
  cbn [BeforeTransformation_loop]. apply sublist_inserts_l.
  by apply sublist_skip.
Qed.

Lemma prepend_loop_sublist (stream : list MarkedEvent) :
  stream `sublist_of` PrependTransformation_loop content stream.
Proof.
  induction stream as [|[mark event] rest IH]; [done|].
  cbn [PrependTransformation_loop]. apply sublist_skip.
  by apply sublist_inserts_l.
Qed.
End InjectorRuns.

(** X7: [after(content)] yields a run of selected events, then the content,
    then the unselected event that ends the run; when the run ends the
    stream, nothing follows it to bring the content out, and the content is
    not injected at all. *)
Theorem after_injects_behind_run (content : list (Event QName)) :
  (∀ (run : list MarkedEvent) event rest,
     run ≠ [] →
     Forall (λ item, selected item = true) run →
     AfterTransformation content (run ++ (None, event) :: rest)
     = yield_all (run ++ _inject content ++ [(None, event)])
                 (AfterTransformation content rest))
  ∧ (∀ before run : list MarkedEvent,
       Forall (λ item, item.1 = None) before →
       run ≠ [] →
       Forall (λ item, selected item = true) run →
       AfterTransformation content (before ++ run)
       = (before ++ run, Raised StopIteration)).
Proof.
  split.
  - intros run event rest Hne Hrun. unfold AfterTransformation.
    rewrite after_loop_enter by done. cbn [after_loop truthy].
    unfold yield, yield_all. cbn [fst snd]. f_equal.
    by rewrite <- !app_assoc.
  - intros before run Hbefore Hne Hrun. unfold AfterTransformation.
    induction Hbefore as [|[mark event] before Hm _ IH].
    + cbn [app]. rewrite <- (app_nil_r run) at 1.
      rewrite (after_loop_enter content run []) by done.
      unfold yield_all. cbn [after_loop fst snd]. by rewrite app_nil_r.
    + simpl in Hm. subst mark. cbn [app after_loop truthy]. by rewrite IH.
Qed.

Lemma after_injects_behind_run_witness :
  let em := [(Some ENTER, Start (plain "em") [] nowhere);
             (Some EXIT, End (plain "em") nowhere)] in
  AfterTransformation [TextEv (Str "x") nowhere] em = (em, Raised StopIteration).
Proof.
  intros em.
  refine (proj2 (after_injects_behind_run [TextEv (Str "x") nowhere]) [] em _ _ _).
  - constructor.
  - discriminate.
  - by repeat constructor.
Defined.

(** X8: [replace(content)] yields no selected event: what it yields has the
    null mark throughout.  A run of selected events that an unselected event
    ends is replaced by the content once, however long the run; a run that
    ends the stream is replaced too, and the body then ends in
    [stream.next()]. *)
Theorem replace_puts_content_for_run (content : list (Event QName)) :
  (∀ stream : list MarkedEvent,
     Forall (λ item, item.1 = None) (ReplaceTransformation content stream).1)
  ∧ (∀ (run : list MarkedEvent) event rest,
       run ≠ [] →
       Forall (λ item, selected item = true) run →
       ReplaceTransformation content (run ++ (None, event) :: rest)
       = yield_all (_inject content ++ [(None, event)])
                   (ReplaceTransformation content rest))
  ∧ (∀ run : list MarkedEvent,
       run ≠ [] →
       Forall (λ item, selected item = true) run →
       ReplaceTransformation content run = (_inject content, Raised StopIteration)).
Proof.
  repeat split.
  - apply replace_loop_unmarked.
  - intros run event rest Hne Hrun. unfold ReplaceTransformation.
    destruct run as [|[[mark|] item] run]; [done| |by inversion Hrun].
    inversion Hrun as [|? ? _ Hrun']; subst.
    cbn [app replace_loop]. rewrite replace_loop_run by done.
    cbn [replace_loop]. unfold yield, yield_all. cbn [fst snd].
    by rewrite <- app_assoc.
  - intros run Hne Hrun. unfold ReplaceTransformation.
    destruct run as [|[[mark|] item] run]; [done| |by inversion Hrun].
    inversion Hrun as [|? ? _ Hrun']; subst.
    cbn [replace_loop]. rewrite <- (app_nil_r run).
    rewrite replace_loop_run by done.
    unfold yield_all. cbn [replace_loop fst snd]. by rewrite app_nil_r.
Qed.

Lemma replace_puts_content_for_run_witness :
  ReplaceTransformation [TextEv (Str "x") nowhere]
    [(Some ENTER, Start (plain "em") [] nowhere);
     (Some EXIT, End (plain "em") nowhere)]
  = ([(None, TextEv (Str "x") nowhere)], Raised StopIteration).
Proof.
  refine (proj2 (proj2 (replace_puts_content_for_run [TextEv (Str "x") nowhere]))
            [(Some ENTER, Start (plain "em") [] nowhere);
             (Some EXIT, End (plain "em") nowhere)] _ _).
  - discriminate.
  - by repeat constructor.
Defined.

Lemma before_loop_items (content : list (Event QName)) (stream : list MarkedEvent) :
  BeforeTransformation_loop content stream
  = concat (map (λ item, (if entering item then _inject content else []) ++ [item])
                stream).
Proof.
  induction stream as [|[mark event] rest IH]; [done|].
  cbn [BeforeTransformation_loop map concat]. rewrite IH.
  change (bool_decide (mark = Some ENTER ∨ mark = Some OUTSIDE))
    with (entering (mark, event)).
  by rewrite <- app_assoc.
Qed.

Lemma prepend_loop_items (content : list (Event QName)) (stream : list MarkedEvent) :
  PrependTransformation_loop content stream
  = concat (map (λ item, item :: (if entering item then _inject content else []))
                stream).
Proof.
  induction stream as [|[mark event] rest IH]; [done|].
  cbn [PrependTransformation_loop map concat]. rewrite IH.
  change (bool_decide (mark = Some ENTER ∨ mark = Some OUTSIDE))
    with (entering (mark, event)).
  done.
Qed.

(** X9: [before(content)] and [prepend(content)] yield every item of the
    stream as it is, in order, and the content, each of its events with the
    null mark, once for each item marked [ENTER] or [OUTSIDE]: [before]
    right before that item, [prepend] right behind it; nothing else is
    yielded.  So what they yield is longer than the stream by the length of
    the content times the number of such items; both return. *)
Theorem before_prepend_inject_per_entering (content : list (Event QName))
    (stream : list MarkedEvent) :
  let entered := length (filter (λ item, entering item = true) stream) in
  BeforeTransformation content stream
  = (concat (map (λ item, (if entering item then _inject content else []) ++ [item])
                 stream), Returned)
  ∧ PrependTransformation content stream
    = (concat (map (λ item, item :: (if entering item then _inject content else []))
                   stream), Returned)
  ∧ _inject content = map (λ event, (None, event)) content
  ∧ length (BeforeTransformation content stream).1
    = length stream + entered * length content
  ∧ length (PrependTransformation content stream).1
    = length stream + entered * length content
  ∧ stream `sublist_of` (BeforeTransformation content stream).1
  ∧ stream `sublist_of` (PrependTransformation content stream).1
  ∧ (BeforeTransformation content stream).2 = Returned
  ∧ (PrependTransformation content stream).2 = Returned.
Proof.
  cbn zeta. repeat split.
  - unfold BeforeTransformation. by rewrite before_loop_items.
  - unfold PrependTransformation. by rewrite prepend_loop_items.
  - apply before_loop_length.
  - apply prepend_loop_length.
  - apply before_loop_sublist.
  - apply prepend_loop_sublist.
Qed.

(** X10: [append(content)] injects the content right before the [EXIT] that
    follows an [ENTER]; a stream without [ENTER], such as one whose selected
    events are all [OUTSIDE], passes unchanged; after an [ENTER] with no
    [EXIT] to come the rest is yielded without the content and the body ends
    in [stream.next()]. *)
Theorem append_injects_before_exit (content : list (Event QName)) :
  (∀ enter (inside : list MarkedEvent) leave rest,
     enter.1 = Some ENTER →
     Forall (λ item, item.1 ≠ Some EXIT) inside →
     leave.1 = Some EXIT →
     AppendTransformation content (enter :: inside ++ leave :: rest)
     = yield_all (enter :: inside ++ _inject content ++ [leave])
                 (AppendTransformation content rest))
  ∧ (∀ stream : list MarkedEvent,
       Forall (λ item, item.1 ≠ Some ENTER) stream →
       AppendTransformation content stream = (stream, Returned))
  ∧ (∀ enter (inside : list MarkedEvent),
       enter.1 = Some ENTER →
       Forall (λ item, item.1 ≠ Some EXIT) inside →
       AppendTransformation content (enter :: inside)
       = (enter :: inside, Raised StopIteration)).
Proof.
  repeat split.
  - intros [mark event] inside [mark' event'] rest Hm Hinside Hm'.
    simpl in Hm, Hm'. subst. unfold AppendTransformation.
    cbn [append_loop]. rewrite bool_decide_eq_true_2 by done.
    rewrite append_loop_inside by done. cbn [append_loop].
    rewrite bool_decide_eq_true_2 by done.
    unfold yield, yield_all. cbn [fst snd app]. f_equal.
    rewrite <- ?app_assoc. by cbn [app].
  - apply append_loop_no_enter.
  - intros [mark event] inside Hm Hinside. simpl in Hm. subst.
    unfold AppendTransformation. cbn [append_loop].
    rewrite bool_decide_eq_true_2 by done.
    rewrite <- (app_nil_r inside) at 1. rewrite append_loop_inside by done.
    unfold yield, yield_all. cbn [append_loop fst snd]. by rewrite app_nil_r.
Qed.

Lemma append_injects_before_exit_witness :
  AppendTransformation [TextEv (Str "x") nowhere]
    [(Some ENTER, Start (plain "em") [] nowhere);
     (Some EXIT, End (plain "em") nowhere)]
  = ([(Some ENTER, Start (plain "em") [] nowhere);
      (None, TextEv (Str "x") nowhere);
      (Some EXIT, End (plain "em") nowhere)], Returned).
Proof.
  refine (proj1 (append_injects_before_exit [TextEv (Str "x") nowhere])
            (Some ENTER, Start (plain "em") [] nowhere) []
            (Some EXIT, End (plain "em") nowhere) [] _ _ _); [done| |done].
  constructor.
Defined.

(** ** Buffers *)

Lemma copy_fold (buffer : StreamBuffer) (stream : list MarkedEvent) :
  foldl (λ buffer '(mark, event),
           if truthy mark then StreamBuffer_append buffer event else buffer)
        buffer stream
  = buffer ++ _unmark (filter (λ item, selected item = true) stream).
Proof.
  revert buffer. induction stream as [|[mark event] rest IH]; intros buffer.
  { by rewrite app_nil_r. }
  cbn [foldl]. rewrite IH, filter_cons.
  change (truthy mark) with (selected (mark, event)).
  destruct (selected (mark, event)) eqn:Hs.
  - rewrite decide_True by done. unfold StreamBuffer_append.
    by rewrite <- app_assoc.
  - by rewrite decide_False by done.
Qed.

(** X11: [copy(buffer)] leaves the stream as it is and puts into the buffer
    the events of the selected items, in order, whatever the buffer held
    before; [cut(buffer)] fills the buffer alike and yields the unselected
    items only, so that every event of the stream is in the buffer or in the
    output and none is in both. *)
Theorem copy_cut_fill_buffer (buffer : StreamBuffer) (stream : list MarkedEvent) :
  CopyTransformation buffer stream
  = (_unmark (filter (λ item, selected item = true) stream), stream)
  ∧ CutTransformation buffer stream
    = (_unmark (filter (λ item, selected item = true) stream),
       (filter (λ item, selected item ≠ true) stream, Returned))
  ∧ (CutTransformation buffer stream).1 ++ _unmark (CutTransformation buffer stream).2.1
    ≡ₚ _unmark stream.
Proof.
  assert (Hcopy : CopyTransformation buffer stream
                  = (_unmark (filter (λ item, selected item = true) stream), stream)).
  { unfold CopyTransformation, StreamBuffer_reset. by rewrite copy_fold. }
  assert (Hcut : CutTransformation buffer stream
                 = (_unmark (filter (λ item, selected item = true) stream),
                    (filter (λ item, selected item ≠ true) stream, Returned))).
  { unfold CutTransformation. rewrite Hcopy. unfold RemoveTransformation.
    do 3 f_equal. apply list_filter_iff. intros [[mark|] event]; by cbv. }
  repeat split; [done|done|].
  rewrite Hcut. cbn [fst snd]. unfold _unmark. rewrite <- map_app.
  apply fmap_Permutation. apply filter_app_complement.
Qed.

(** ** Empty tags, further *)

(** A [START] at the end of the stream is held back and never yielded. *)
Lemma EmptyTagFilter_loop_final_start {N} (stream : list (Event N)) tag attrs pos :
  ∀ prev,
    EmptyTagFilter_loop prev (stream ++ [Start tag attrs pos])
    = coalesce (pending prev ++ stream).
Proof.
  induction stream as [|ev rest IH]; intros prev.
  { by destruct prev as [[]|]. }
  assert (Hgo : (if is_kind START ev then [] else [ev])
                  ++ EmptyTagFilter_loop (Some ev) (rest ++ [Start tag attrs pos])
                = coalesce (ev :: rest)).
  { rewrite (IH (Some ev)). by destruct ev. }
  destruct prev as [[tag' attrs' pos'| | | | | | | | | |]|];
    cbn [EmptyTagFilter_loop pending app]; try exact Hgo.
  cbn [coalesce]. destruct (is_kind END ev) eqn:He.
  - f_equal. apply (IH (Some (Empty tag' attrs' pos'))).
  - f_equal. exact Hgo.
Qed.

(** The cases of [coalesce], as an induction scheme. *)
Lemma coalesce_cases {N} (P : list (Event N) → Prop) :
  P [] →
  (∀ tag attrs pos next rest,
     is_kind END next = true → P rest → P (Start tag attrs pos :: next :: rest)) →
  (∀ tag attrs pos rest,
     match rest with next :: _ => is_kind END next = false | [] => True end →
     P rest → P (Start tag attrs pos :: rest)) →
  (∀ ev rest, is_kind START ev = false → P rest → P (ev :: rest)) →
  ∀ stream, P stream.
Proof.
  intros Hnil Hempty Hstart Hother stream.
  enough (H : ∀ n stream, length stream ≤ n → P stream) by by eapply H.
  clear stream. induction n as [|n IH]; intros stream Hlen.
  { by destruct stream; [|simpl in Hlen; lia]. }
  destruct stream as [|ev rest]; [done|]. simpl in Hlen.
  destruct (is_kind START ev) eqn:Hs;
    [|apply Hother; [done|apply IH; lia]].
  destruct ev; try done.
  destruct rest as [|next rest'].
  { by apply Hstart. }
  destruct (is_kind END next) eqn:He.
  - apply Hempty; [done|]. apply IH. simpl in Hlen. lia.
  - apply Hstart; [done|]. apply IH. simpl in *. lia.
Qed.

Lemma coalesce_empty {N} tag attrs pos (next : Event N) rest :
  is_kind END next = true →
  coalesce (Start tag attrs pos :: next :: rest) = Empty tag attrs pos :: coalesce rest.
Proof. intros He. cbn [coalesce]. by rewrite He. Qed.

Lemma coalesce_start {N} tag attrs pos (rest : list (Event N)) :
  match rest with next :: _ => is_kind END next = false | [] => True end →
  coalesce (Start tag attrs pos :: rest) = Start tag attrs pos :: coalesce rest.
Proof. destruct rest as [|next rest']; [done|]. intros He. cbn [coalesce]. by rewrite He. Qed.

Lemma coalesce_other {N} (ev : Event N) rest :
  is_kind START ev = false → coalesce (ev :: rest) = ev :: coalesce rest.
Proof. by destruct ev. Qed.

Lemma coalesce_length {N} (stream : list (Event N)) :
  length (coalesce stream) ≤ length stream.
Proof.
  induction stream as [|tag attrs pos next rest He IH|tag attrs pos rest He IH
                      |ev rest Hs IH] using coalesce_cases.
  - done.
  - rewrite coalesce_empty by done. simpl. lia.
  - rewrite coalesce_start by done. simpl. lia.
  - rewrite coalesce_other by done. simpl. lia.
Qed.

(** X12: when the last event of the stream is a [START], [EmptyTagFilter]
    never yields it: the output is that for the stream without its last
    event, with each [START] that an [END] follows at once made one
    [EMPTY]; so it is shorter than the input. *)
Theorem empty_tag_filter_final_start {N} (stream : list (Event N)) tag attrs pos :
  EmptyTagFilter (stream ++ [Start tag attrs pos]) = coalesce stream
  ∧ length (EmptyTagFilter (stream ++ [Start tag attrs pos]))
    < length (stream ++ [Start tag attrs pos]).
Proof.
  assert (Heq : EmptyTagFilter (stream ++ [Start tag attrs pos]) = coalesce stream).
  { unfold EmptyTagFilter. by rewrite EmptyTagFilter_loop_final_start. }
  split; [done|]. rewrite Heq, length_app. cbn [length].
  pose proof (coalesce_length stream). lia.
Qed.

Lemma coalesce_nesting {N} (stream : list (Event N)) :
  ∀ d, nesting d (coalesce stream) = nesting d stream.
Proof.
  induction stream as [|tag attrs pos next rest He IH|tag attrs pos rest He IH
                      |ev rest Hs IH] using coalesce_cases; intros d.
  - done.
  - rewrite coalesce_empty by done. cbn [nesting]. rewrite He.
    unfold is_kind in *. apply bool_decide_eq_true in He.
    rewrite (bool_decide_eq_false_2 (kind next = START)) by congruence.
    cbn. apply IH.
  - rewrite coalesce_start by done. by apply nesting_cons_irrelevant.
  - rewrite coalesce_other by done. by apply nesting_cons_irrelevant.
Qed.

Lemma coalesce_head_not_end {N} (stream : list (Event N)) :
  match stream with next :: _ => is_kind END next = false | [] => True end →
  match coalesce stream with next :: _ => is_kind END next = false | [] => True end.
Proof.
  destruct stream as [|ev rest]; [done|]. intros He.
  destruct ev; try done.
  destruct rest as [|next rest']; [done|].
  cbn [coalesce]. by destruct (is_kind END next).
Qed.

Lemma coalesce_idempotent {N} (stream : list (Event N)) :
  coalesce (coalesce stream) = coalesce stream.
Proof.
  induction stream as [|tag attrs pos next rest He IH|tag attrs pos rest He IH
                      |ev rest Hs IH] using coalesce_cases.
  - done.
  - rewrite coalesce_empty by done. rewrite coalesce_other by done. by rewrite IH.
  - rewrite coalesce_start by done.
    rewrite coalesce_start by (by apply coalesce_head_not_end). by rewrite IH.
  - rewrite coalesce_other by done. rewrite coalesce_other by done. by rewrite IH.
Qed.

Lemma EmptyTagFilter_well_formed {N} (stream : list (Event N)) :
  well_formed stream → EmptyTagFilter stream = coalesce stream.
Proof.
  intros Hwf. unfold EmptyTagFilter.
  rewrite (EmptyTagFilter_loop_coalesce stream None); [done|].
  intros ev. by apply (nesting_last_not_start stream 0).
Qed.

(** X13: [EmptyTagFilter] turns a well-formed stream into a well-formed
    stream (an [EMPTY] event counting as an element opened and closed), and
    on a well-formed stream it is idempotent: its output holds no [START]
    that an [END] follows at once. *)
Theorem empty_tag_filter_keeps_well_formed {N} (stream : list (Event N)) :
  well_formed stream →
  well_formed (EmptyTagFilter stream)
  ∧ EmptyTagFilter (EmptyTagFilter stream) = EmptyTagFilter stream.
Proof.
  intros Hwf.
  assert (Hwf' : well_formed (EmptyTagFilter stream)).
  { rewrite EmptyTagFilter_well_formed by done.
    unfold well_formed. by rewrite coalesce_nesting. }
  split; [done|].
  rewrite (EmptyTagFilter_well_formed (EmptyTagFilter stream)) by done.
  rewrite EmptyTagFilter_well_formed by done. apply coalesce_idempotent.
Qed.

Lemma empty_tag_filter_keeps_well_formed_witness :
  well_formed (EmptyTagFilter abc)
  ∧ EmptyTagFilter (EmptyTagFilter abc) = EmptyTagFilter abc.
Proof. apply (empty_tag_filter_keeps_well_formed abc). reflexivity. Defined.

(** ** Namespace stripping, further *)

Lemma strip_event_names (ns : option string) (ev : Event QName) :
  Forall (λ out,
            kind out ≠ START_NS ∧ kind out ≠ END_NS
            ∧ (∀ tag attrs pos,
                 out = Start tag attrs pos ∨ out = Empty tag attrs pos →
                 (∃ s, tag = Unicode s)
                 ∧ Forall (λ item, ∃ attr, item.1 = Qualified attr
                                           ∧ not_kept ns attr = false) attrs)
            ∧ (∀ tag pos, out = End tag pos → ∃ s, tag = Unicode s))
         (strip_event ns ev).
Proof.
  assert (Hattrs : ∀ attrs : list (QName * string),
    Forall (λ item : Name * string,
              ∃ attr, item.1 = Qualified attr ∧ not_kept ns attr = false)
           (map (λ item, (Qualified item.1, item.2)) (strip_attrs ns attrs))).
  { intros attrs. apply Forall_map, Forall_forall. intros item Hin.
    apply list_elem_of_filter in Hin as [Hkeep _]. exists item.1. split; [done|].
    unfold not_kept. destruct (truthy_str (namespace item.1)); [|done].
    cbn in *. by rewrite Hkeep. }
  destruct ev; cbn [strip_event];
    try (destruct (truthy_str _ && negb _)); try apply Forall_nil_2;
    (apply Forall_cons; split; [|apply Forall_nil_2]);
    (split; [done|]); (split; [done|]); split.
  all: try (intros ? ? ? [Heq|Heq]; simplify_eq; by eauto).
  all: try (intros ? ? Heq; simplify_eq; by eauto).
Qed.

(** X14: what [NamespaceStripper] yields holds no [START_NS] and no [END_NS]
    event and no more events than the stream; every tag in it is a plain
    string, no qualified name any more, and every attribute is a qualified
    name that has no namespace or the one kept. *)
Theorem strip_yields_plain_tags (ns : option string) (stream : list (Event QName)) :
  Forall (λ out,
            kind out ≠ START_NS ∧ kind out ≠ END_NS
            ∧ (∀ tag attrs pos,
                 out = Start tag attrs pos ∨ out = Empty tag attrs pos →
                 (∃ s, tag = Unicode s)
                 ∧ Forall (λ item, ∃ attr, item.1 = Qualified attr
                                           ∧ not_kept ns attr = false) attrs)
            ∧ (∀ tag pos, out = End tag pos → ∃ s, tag = Unicode s))
         (NamespaceStripper ns stream)
  ∧ length (NamespaceStripper ns stream) ≤ length stream.
Proof.
  induction stream as [|ev rest [IHnames IHlength]]; [by split|].
  rewrite NamespaceStripper_cons. split.
  - apply Forall_app. split; [apply strip_event_names|done].
  - rewrite length_app. cbn [length].
    assert (length (strip_event ns ev) ≤ 1); [|lia].
    destruct ev; cbn [strip_event]; try (destruct (truthy_str _ && negb _)); cbn; lia.
Qed.

(** ** Namespace flattening, further *)

Lemma flatten_attrs_plain st (attrs : list (QName * string)) :
  Forall (λ item, namespace item.1 = None) attrs →
  flatten_attrs st attrs = Ok (st, map (λ item, (localname item.1, item.2)) attrs).
Proof.
  induction 1 as [|[attr value] attrs Hns _ IH]; [done|].
  cbn [flatten_attrs]. unfold flatten_attr. simpl in Hns. rewrite Hns.
  cbn. by rewrite IH.
Qed.

Lemma flatten_step_plain st (ev : Event QName) :
  plain_event ev →
  ns_attrs st = [] →
  flatten_step st ev = Ok (st, [rename localname ev]).
Proof.
  intros Hplain Hdecl. destruct st as [nss pfs decls g]. simpl in Hdecl. subst.
  destruct ev; try done; cbn [plain_event] in Hplain.
  - destruct Hplain as [Htag Hattrs].
    cbn [flatten_step]. unfold flatten_start, flatten_tag. rewrite Htag. cbn.
    by rewrite flatten_attrs_plain.
  - cbn [flatten_step]. unfold flatten_end. by rewrite Hplain.
  - destruct Hplain as [Htag Hattrs].
    cbn [flatten_step]. unfold flatten_start, flatten_tag. rewrite Htag. cbn.
    by rewrite flatten_attrs_plain.
Qed.

(** X15: on a stream in which no name has a namespace and no event declares
    one, [NamespaceFlattener] returns without failing and yields the events
    as they are, each name written as its local name, whatever prefixes it
    was configured with. *)
Theorem flatten_plain_stream (given : option (gmap string string))
    (stream : list (Event QName)) :
  Forall plain_event stream →
  NamespaceFlattener given stream = (map (rename localname) stream, Returned).
Proof.
  intros Hplain. unfold NamespaceFlattener.
  assert (Hdecl : ns_attrs (flattener_init given) = []) by done.
  revert Hdecl. generalize (flattener_init given). intros st Hdecl.
  induction Hplain as [|ev rest Hev _ IH]; [done|].
  cbn [flatten_loop]. rewrite flatten_step_plain by done. by rewrite IH.
Qed.

Lemma flatten_plain_stream_witness :
  NamespaceFlattener None div_fragment
  = (map (rename localname) div_fragment, Returned).
Proof.
  apply (flatten_plain_stream None div_fragment).
  repeat constructor.
Defined.

Lemma flatten_attr_keeps_declarations st st' attr name :
  flatten_attr st attr = Ok (st', name) →
  ns_attrs st' = ns_attrs st.
Proof.
  unfold flatten_attr. destruct (truthy_str (namespace attr)); [|by intros [= <- _]].
  destruct (namespaces st !! default "" (namespace attr)) as [stack|].
  - destruct (top stack); [|done]. cbn. by intros [= <- _].
  - cbn. by intros [= <- _].
Qed.

Lemma flatten_attrs_keeps_declarations (attrs : list (QName * string)) :
  ∀ st st' new_attrs,
    flatten_attrs st attrs = Ok (st', new_attrs) →
    ns_attrs st' = ns_attrs st ∧ map snd new_attrs = map snd attrs.
Proof.
  induction attrs as [|[attr value] attrs IH]; intros st st' new_attrs.
  { by intros [= <- <-]. }
  cbn [flatten_attrs].
  destruct (flatten_attr st attr) as [[st1 name]|] eqn:Hattr; [|done]. cbn.
  destruct (flatten_attrs st1 attrs) as [[st2 new]|] eqn:Hattrs; [|done]. cbn.
  intros [= <- <-].
  destruct (IH _ _ _ Hattrs) as [Hdecl Hvalues].
  apply flatten_attr_keeps_declarations in Hattr.
  split; [congruence|]. cbn. by rewrite Hvalues.
Qed.

(** X16: the attributes that [NamespaceFlattener] writes on a start tag are
    the declarations waiting since the [START_NS] events before it, then
    [xmlns] for the namespace of the tag if that is true and has no binding
    yet, then the attributes of the element, one for one with their values
    in order; a prefix made up for the namespace of an attribute is never
    declared.  Nothing is left waiting afterwards. *)
Theorem flatten_start_declarations (st st' : FlattenerState) (tag : QName)
    (attrs : list (QName * string)) (pos : Pos) (out : list (Event string)) :
  flatten_step st (Start tag attrs pos) = Ok (st', out) →
  ∃ tagname new_attrs,
    out = [Start tagname
             (ns_attrs st
              ++ (if truthy_str (namespace tag)
                     && bool_decide (namespaces st !! default "" (namespace tag) = None)
                  then [("xmlns", default "" (namespace tag))] else [])
              ++ new_attrs) pos]
    ∧ map snd new_attrs = map snd attrs
    ∧ ns_attrs st' = [].
Proof.
  cbn [flatten_step]. unfold flatten_start.
  destruct (flatten_tag st tag) as [[st1 tagname]|] eqn:Htag; [|done]. cbn.
  destruct (flatten_attrs st1 attrs) as [[st2 new_attrs]|] eqn:Hattrs; [|done]. cbn.
  intros [= <- <-]. exists tagname, new_attrs.
  destruct (flatten_attrs_keeps_declarations _ _ _ _ Hattrs) as [Hdecl Hvalues].
  split; [|done]. rewrite Hdecl. do 2 f_equal.
  unfold flatten_tag in Htag.
  destruct (truthy_str (namespace tag)); cbn [andb].
  - destruct (namespaces st !! default "" (namespace tag)) as [stack|].
    + destruct (top stack); [|done]. cbn in Htag. injection Htag as <- _.
      by rewrite bool_decide_eq_false_2.
    + injection Htag as <- _. rewrite bool_decide_eq_true_2 by done.
      cbn. by rewrite <- app_assoc.
  - by injection Htag as <- _.
Qed.

Lemma flatten_start_declarations_witness :
  let st := flattener_init None in
  let tag := mkQName (Some "NS1") "a" in
  let attrs := [(mkQName (Some "NS2") "b", "1")] in
  match flatten_step st (Start tag attrs nowhere) with
  | Ok (st', out) =>
      ∃ tagname new_attrs,
        out = [Start tagname
                 (ns_attrs st
                  ++ (if truthy_str (namespace tag)
                         && bool_decide (namespaces st !! default "" (namespace tag) = None)
                      then [("xmlns", default "" (namespace tag))] else [])
                  ++ new_attrs) nowhere]
        ∧ map snd new_attrs = map snd attrs
        ∧ ns_attrs st' = []
  | Error _ => False
  end.
Proof.
  intros st tag attrs.
  destruct (flatten_step st (Start tag attrs nowhere)) as [[st' out]|exc] eqn:Hstep.
  - by apply (flatten_start_declarations st st' tag attrs nowhere out).
  - vm_compute in Hstep. discriminate.
Defined.

Lemma flatten_loop_plain (body rest : list (Event QName)) st :
  Forall plain_event body →
  ns_attrs st = [] →
  flatten_loop st (body ++ rest)
  = yield_all (map (rename localname) body) (flatten_loop st rest).
Proof.
  intros Hplain Hdecl. induction Hplain as [|ev body Hev _ IH].
  { cbn [app map]. by rewrite yield_all_nil. }
  cbn [app flatten_loop]. rewrite flatten_step_plain by done.
  rewrite IH. cbn [map]. by rewrite <- yield_all_app.
Qed.

Lemma flatten_run_plain (body rest : list (Event QName)) st :
  Forall plain_event body →
  ns_attrs st = [] →
  flatten_run st (body ++ rest) = flatten_run st rest.
Proof.
  intros Hplain Hdecl. induction Hplain as [|ev body Hev _ IH]; [done|].
  cbn [app flatten_run]. by rewrite flatten_step_plain.
Qed.

(** X17: a namespace declared by [START_NS], on a URI and a prefix that have
    no binding yet, lasts from there to its [END_NS]: the element in that
    namespace in between is written under the prefix, the declaration is on
    its start tag behind those already waiting, and after [END_NS] the
    bindings are those from before. *)
Theorem flatten_declared_element (st : FlattenerState) (prefix uri name : string)
    (body : list (Event QName)) (p1 p2 p3 p4 : Pos) :
  nonempty uri = true →
  namespaces st !! uri = None →
  prefixes st !! uri = None →
  prefixes st !! prefix = None →
  Forall plain_event body →
  flatten_loop st
    (StartNs prefix uri p1 :: Start (mkQName (Some uri) name) [] p2
       :: body ++ [End (mkQName (Some uri) name) p3; EndNs prefix p4])
  = (Start (prefixed prefix name)
       (ns_attrs st
          ++ [(if nonempty prefix then "xmlns:" +:+ prefix else "xmlns", uri)]) p2
       :: map (rename localname) body ++ [End (prefixed prefix name) p3],
     Returned)
  ∧ ∃ st',
      flatten_run st
        (StartNs prefix uri p1 :: Start (mkQName (Some uri) name) [] p2
           :: body ++ [End (mkQName (Some uri) name) p3; EndNs prefix p4])
      = Ok st'
      ∧ namespaces st' = namespaces st
      ∧ prefixes st' = prefixes st
      ∧ ns_attrs st' = [].
Proof.
  intros Huri Hns Hpu Hpp Hbody. destruct st as [nss pfs decls g].
  cbn [namespaces prefixes ns_attrs] in *.
  assert (Hstart : flatten_step (mkFlattenerState nss pfs decls g) (StartNs prefix uri p1)
    = Ok (mkFlattenerState (<[uri := [prefix]]> nss) (<[prefix := [uri]]> pfs)
            (decls ++ [(if nonempty prefix then "xmlns:" +:+ prefix else "xmlns", uri)]) g,
          [])).
  { cbn [flatten_step]. unfold flatten_start_ns. cbn [namespaces prefixes].
    rewrite Hns, Hpu. cbn. unfold _push_ns, _push_ns_attr, setdefault_append. cbn.
    rewrite Hns, Hpp. cbn. by destruct (nonempty prefix). }
  set (decl := (if nonempty prefix then "xmlns:" +:+ prefix else "xmlns", uri)) in *.
  assert (Htag : flatten_step
      (mkFlattenerState (<[uri := [prefix]]> nss) (<[prefix := [uri]]> pfs)
         (decls ++ [decl]) g)
      (Start (mkQName (Some uri) name) [] p2)
    = Ok (mkFlattenerState (<[uri := [prefix]]> nss) (<[prefix := [uri]]> pfs) [] g,
          [Start (prefixed prefix name) (decls ++ [decl]) p2])).
  { cbn [flatten_step]. unfold flatten_start, flatten_tag. cbn [namespace localname].
    cbn [truthy_str]. rewrite Huri. cbn [default namespaces].
    rewrite lookup_insert_eq. cbn. by rewrite app_nil_r. }
  assert (Hend : flatten_step
      (mkFlattenerState (<[uri := [prefix]]> nss) (<[prefix := [uri]]> pfs) [] g)
      (End (mkQName (Some uri) name) p3)
    = Ok (mkFlattenerState (<[uri := [prefix]]> nss) (<[prefix := [uri]]> pfs) [] g,
          [End (prefixed prefix name) p3])).
  { cbn [flatten_step]. unfold flatten_end, getitem. cbn [namespace localname].
    cbn [truthy_str]. rewrite Huri. cbn [default namespaces].
    by rewrite lookup_insert_eq. }
  assert (Hendns : flatten_step
      (mkFlattenerState (<[uri := [prefix]]> nss) (<[prefix := [uri]]> pfs) [] g)
      (EndNs prefix p4)
    = Ok (mkFlattenerState nss pfs [] g, [])).
  { cbn [flatten_step]. unfold flatten_end_ns, getitem. cbn [namespaces prefixes].
    rewrite lookup_insert_eq. cbn. rewrite lookup_insert_eq. cbn.
    unfold pop_in. cbn. by rewrite !delete_insert_id. }
  split.
  - cbn [flatten_loop]. rewrite Hstart. cbn [flatten_loop]. rewrite Htag.
    rewrite flatten_loop_plain by done.
    cbn [flatten_loop]. rewrite Hend. cbn [flatten_loop]. rewrite Hendns.
    unfold yield_all. cbn [fst snd app]. by rewrite ?app_nil_r.
  - exists (mkFlattenerState nss pfs [] g).
    cbn [flatten_run]. rewrite Hstart. cbn [mbind Result_bind flatten_run].
    rewrite Htag. cbn [mbind Result_bind flatten_run].
    rewrite flatten_run_plain by done.
    cbn [flatten_run]. rewrite Hend. cbn [mbind Result_bind flatten_run].
    rewrite Hendns. by cbn.
Qed.

Lemma flatten_declared_element_witness :
  flatten_loop (flattener_init None)
    [StartNs "x" "NS" nowhere; Start (mkQName (Some "NS") "a") [] nowhere;
     TextEv (Str "t") nowhere;
     End (mkQName (Some "NS") "a") nowhere; EndNs "x" nowhere]
  = ([Start "x:a" [("xmlns:x", "NS")] nowhere; TextEv (Str "t") nowhere;
      End "x:a" nowhere], Returned)
  ∧ ∃ st',
      flatten_run (flattener_init None)
        [StartNs "x" "NS" nowhere; Start (mkQName (Some "NS") "a") [] nowhere;
         TextEv (Str "t") nowhere;
         End (mkQName (Some "NS") "a") nowhere; EndNs "x" nowhere]
      = Ok st'
      ∧ namespaces st' = namespaces (flattener_init None)
      ∧ prefixes st' = prefixes (flattener_init None)
      ∧ ns_attrs st' = [].
Proof.
  apply (flatten_declared_element (flattener_init None) "x" "NS" "a"
           [TextEv (Str "t") nowhere] nowhere nowhere nowhere nowhere).
  - reflexivity.
  - by vm_compute.
  - by vm_compute.
  - by vm_compute.
  - by repeat constructor.
Defined.

(** X18: a [START_NS] for a URI that has a binding already queues no
    declaration, yet its prefix is the one under which the tags of that
    namespace are written from then on: the start tag that follows carries
    the new prefix and only the declarations that were waiting before. *)
Theorem flatten_rebound_prefix (st : FlattenerState) (prefix uri name : string)
    (p1 p2 : Pos) :
  nonempty uri = true →
  is_Some (namespaces st !! uri) →
  flatten_loop st [StartNs prefix uri p1; Start (mkQName (Some uri) name) [] p2]
  = ([Start (prefixed prefix name) (ns_attrs st) p2], Returned).
Proof.
  intros Huri [stack Hns]. destruct st as [nss pfs decls g].
  cbn [namespaces ns_attrs] in *.
  cbn [flatten_loop flatten_step]. unfold flatten_start_ns. cbn [namespaces].
  rewrite Hns. cbn [mbind Result_bind flatten_loop flatten_step].
  unfold flatten_start, flatten_tag, _push_ns, setdefault_append.
  cbn [namespace localname truthy_str namespaces prefixes ns_attrs gen default].
  rewrite Huri, Hns, lookup_insert_eq. cbn [default]. unfold top.
  rewrite last_snoc. cbn. by rewrite app_nil_r.
Qed.

Lemma flatten_rebound_prefix_witness :
  match flatten_run (flattener_init None) [StartNs "x" "NS" nowhere] with
  | Ok st =>
      flatten_loop st [StartNs "y" "NS" nowhere;
                       Start (mkQName (Some "NS") "b") [] nowhere]
      = ([Start (prefixed "y" "b") (ns_attrs st) nowhere], Returned)
  | Error _ => False
  end.
Proof.
  destruct (flatten_run (flattener_init None) [StartNs "x" "NS" nowhere])
    as [st|exc] eqn:Hrun.
  - apply (flatten_rebound_prefix st "y" "NS" "b" nowhere nowhere); [done|].
    vm_compute in Hrun. injection Hrun as <-. exists ["x"]. by vm_compute.
  - vm_compute in Hrun. discriminate.
Defined.

(** X19: an end tag in a namespace that has no binding makes
    [NamespaceFlattener] fail with [KeyError]: behind events without
    namespaces, which it yields first, an [END] whose namespace is true and
    not the XML namespace ends the output there, whatever prefixes the
    flattener was configured with. *)
Theorem flatten_end_unbound_raises (given : option (gmap string string))
    (before rest : list (Event QName)) (tag : QName) (pos : Pos) :
  Forall plain_event before →
  truthy_str (namespace tag) = true →
  namespace tag ≠ Some XML_NAMESPACE →
  NamespaceFlattener given (before ++ End tag pos :: rest)
  = (map (rename localname) before, Raised KeyError).
Proof.
  intros Hplain Htrue Hxml. unfold NamespaceFlattener.
  rewrite flatten_loop_plain by done.
  cbn [flatten_loop flatten_step]. unfold flatten_end, getitem. rewrite Htrue.
  unfold flattener_init. cbn [namespaces].
  rewrite lookup_singleton_ne.
  - unfold yield_all. cbn. by rewrite app_nil_r.
  - destruct (namespace tag) as [uri|]; [|done]. cbn. congruence.
Qed.

Lemma flatten_end_unbound_raises_witness :
  NamespaceFlattener None
    ([TextEv (Str "t") nowhere] ++ End (mkQName (Some "NS") "a") nowhere :: [])
  = (map (rename localname) [TextEv (Str "t") nowhere], Raised KeyError).
Proof.
  apply (flatten_end_unbound_raises None [TextEv (Str "t") nowhere] []
           (mkQName (Some "NS") "a") nowhere).
  - by repeat constructor.
  - reflexivity.
  - discriminate.
Defined.

(** ** The whitespace filter *)



Section WhitespaceFacts.
Context (preserve_elems noescape_elems : list QName).

Lemma flush_text_cases (preserve : nat) (textbuf : list Text) (pos : Pos) :
  (textbuf = [] ∧ flush_text preserve textbuf pos = [])
  ∨ (textbuf ≠ [] ∧ ∃ text, flush_text preserve textbuf pos = [TextEv (Markup text) pos]).
Proof. destruct textbuf; [by left|right]. split; [done|]. by eexists. Qed.

Lemma whitespace_loop_other (ev : Event QName) (rest : list (Event QName))
    (preserve : nat) (noescape : bool) (textbuf : list Text) :
  kind ev ≠ TEXT →
  ∃ pos preserve' noescape',
    whitespace_loop preserve_elems noescape_elems preserve noescape textbuf (ev :: rest)
    = flush_text preserve textbuf pos
      ++ ev :: whitespace_loop preserve_elems noescape_elems preserve' noescape' [] rest.
Proof.
  intros Hev. destruct ev; try done; cbn [whitespace_loop]; by do 3 eexists.
Qed.


Lemma whitespace_loop_keeps_others (stream : list (Event QName)) :
  ∀ preserve noescape textbuf,
    filter (λ ev, kind ev ≠ TEXT)
      (whitespace_loop preserve_elems noescape_elems preserve noescape textbuf stream)
    = filter (λ ev, kind ev ≠ TEXT) stream
    ∧ length (filter (λ ev, kind ev = TEXT)
        (whitespace_loop preserve_elems noescape_elems preserve noescape textbuf stream))
      ≤ length (filter (λ ev, kind ev = TEXT) stream)
        + (match textbuf with [] => 0 | _ => 1 end).
Proof.
  induction stream as [|ev rest IH]; intros preserve noescape textbuf.
  { cbn [whitespace_loop].
    destruct (flush_text_cases preserve textbuf None) as [[-> ->]|[Hbuf [text ->]]].
    - by split.
    - split; [done|]. destruct textbuf; [done|].
      rewrite filter_cons_True by done. cbn [filter list_filter length]. lia. }
  destruct (decide (kind ev = TEXT)) as [Htext|Hother].
  { destruct ev; try done. cbn [whitespace_loop].
    destruct (IH preserve noescape
                (textbuf ++ [if noescape then Markup (text_str text) else text]))
      as [Hothers Htexts].
    split.
    - rewrite Hothers. by rewrite filter_cons_False by (cbn; tauto).
    - rewrite filter_cons_True by done. cbn [length].
      destruct (textbuf ++ [if noescape then Markup (text_str text) else text]) eqn:Hbuf.
      { by destruct textbuf. }
      lia. }
  destruct (whitespace_loop_other ev rest preserve noescape textbuf Hother)
    as (pos & preserve' & noescape' & ->).
  destruct (IH preserve' noescape' []) as [Hothers Htexts].
  rewrite !filter_app, !filter_cons_True, (filter_cons_False _ ev) by done.
  rewrite (filter_cons_False (λ ev, kind ev = TEXT) ev) by done.
  rewrite Hothers.
  destruct (flush_text_cases preserve textbuf pos) as [[-> ->]|[Hbuf [text ->]]].
  - split; [done|]. cbn [filter list_filter length app]. lia.
  - split; [done|]. destruct textbuf; [done|].
    rewrite filter_cons_True by done. cbn [filter list_filter length app]. lia.
Qed.
End WhitespaceFacts.

Section WhitespaceRuns.
Context (preserve_elems noescape_elems : list QName).



End WhitespaceRuns.



(** X21: [WhitespaceFilter] touches text only: the events other than [TEXT]
    come out as they went in and in their order, and there are no more
    [TEXT] events in the output than in the stream. *)
Theorem whitespace_keeps_other_events (preserve_elems noescape_elems : list QName)
    (stream : list (Event QName)) :
  filter (λ ev, kind ev ≠ TEXT) (WhitespaceFilter preserve_elems noescape_elems stream)
  = filter (λ ev, kind ev ≠ TEXT) stream
  ∧ length (filter (λ ev, kind ev = TEXT)
              (WhitespaceFilter preserve_elems noescape_elems stream))
    ≤ length (filter (λ ev, kind ev = TEXT) stream).
Proof.
  unfold WhitespaceFilter.
  destruct (whitespace_loop_keeps_others preserve_elems noescape_elems stream 0 false [])
    as [Hothers Htexts].
  split; [done|]. cbn in Htexts. lia.
Qed.

(** ** Text output *)

Section TextFacts.
Context (strip_markup : string → string).

Lemma TextSerializer_app {N} (xs ys : list (Event N)) :
  TextSerializer strip_markup (xs ++ ys)
  = TextSerializer strip_markup xs ++ TextSerializer strip_markup ys.
Proof.
  induction xs as [|ev xs IH]; [done|].
  destruct ev; cbn [app TextSerializer]; by rewrite ?IH.
Qed.

Lemma TextSerializer_other {N} (ev : Event N) (rest : list (Event N)) :
  kind ev ≠ TEXT →
  TextSerializer strip_markup (ev :: rest) = TextSerializer strip_markup rest.
Proof. by destruct ev. Qed.

Lemma TextSerializer_unless_start {N} (ev : Event N) (rest rest' : list (Event N)) :
  TextSerializer strip_markup rest = TextSerializer strip_markup rest' →
  TextSerializer strip_markup ((if is_kind START ev then [] else [ev]) ++ rest)
  = TextSerializer strip_markup (ev :: rest').
Proof.
  intros Hrest. destruct ev; unfold is_kind; cbn [kind];
    first [rewrite bool_decide_eq_true_2 by done
          |rewrite bool_decide_eq_false_2 by done];
    cbn [app TextSerializer]; by rewrite ?Hrest.
Qed.

Lemma TextSerializer_EmptyTagFilter_loop {N} (stream : list (Event N)) :
  ∀ prev,
    TextSerializer strip_markup (EmptyTagFilter_loop prev stream)
    = TextSerializer strip_markup stream.
Proof.
  induction stream as [|ev rest IH]; intros prev; [done|].
  cbn [EmptyTagFilter_loop].
  assert (Hother :
    TextSerializer strip_markup
      ((if is_kind START ev then [] else [ev]) ++ EmptyTagFilter_loop (Some ev) rest)
    = TextSerializer strip_markup (ev :: rest)).
  { by apply TextSerializer_unless_start. }
  destruct prev as [[]|]; try exact Hother.
  destruct (is_kind END ev) eqn:Hend.
  - rewrite TextSerializer_other by done. rewrite IH.
    symmetry. apply TextSerializer_other.
    apply bool_decide_eq_true in Hend. by rewrite Hend.
  - by rewrite TextSerializer_other by done.
Qed.

Lemma TextSerializer_strip_event (ns : option string) (ev : Event QName) :
  TextSerializer strip_markup (strip_event ns ev) = TextSerializer strip_markup [ev].
Proof.
  destruct ev; try done; cbn [strip_event];
    by destruct (truthy_str _ && negb _).
Qed.
End TextFacts.

(** X22: the text that [TextSerializer] yields is that of the [TEXT] events
    alone, so the stages that work on tags do not change it: after
    [EmptyTagFilter] and after [NamespaceStripper] the same strings come
    out as for the stream itself. *)
Theorem text_ignores_tag_stages (strip_markup : string → string)
    (ns : option string) (stream : list (Event QName)) :
  TextSerializer strip_markup (EmptyTagFilter stream)
  = TextSerializer strip_markup stream
  ∧ TextSerializer strip_markup (NamespaceStripper ns stream)
    = TextSerializer strip_markup stream.
Proof.
  split; [apply TextSerializer_EmptyTagFilter_loop|].
  unfold NamespaceStripper. induction stream as [|ev rest IH]; [done|].
  cbn [map concat]. rewrite TextSerializer_app, TextSerializer_strip_event, IH.
  by rewrite <- TextSerializer_app.
Qed.

(** ** Failures of the HTML serializer *)


Lemma html_loop_no_doctype (stream : list (Event Name)) :
  Forall (λ ev, kind ev ≠ DOCTYPE) stream →
  ∀ have_doctype noescape, (html_loop have_doctype noescape stream).2 = Returned.
Proof.
  induction 1 as [|ev rest Hev _ IH]; intros have_doctype noescape; [done|].
  destruct ev; try done; cbn [html_loop]; unfold yield; cbn [snd]; apply IH.
Qed.

Lemma EmptyTagFilter_loop_no_doctype {N} (stream : list (Event N)) :
  Forall (λ ev, kind ev ≠ DOCTYPE) stream →
  ∀ prev, Forall (λ ev, kind ev ≠ DOCTYPE) (EmptyTagFilter_loop prev stream).
Proof.
  induction 1 as [|ev rest Hev _ IH]; intros prev; [done|].
  cbn [EmptyTagFilter_loop].
  assert (Hother : Forall (λ ev, kind ev ≠ DOCTYPE)
    ((if is_kind START ev then [] else [ev]) ++ EmptyTagFilter_loop (Some ev) rest)).
  { apply Forall_app. split; [|apply IH]. destruct (is_kind START ev); by repeat constructor. }
  destruct prev as [[]|]; try exact Hother.
  destruct (is_kind END ev); by constructor.
Qed.

Lemma WhitespaceFilter_no_doctype (preserve_elems noescape_elems : list QName)
    (stream : list (Event QName)) :
  Forall (λ ev, kind ev ≠ DOCTYPE) stream →
  Forall (λ ev, kind ev ≠ DOCTYPE) (WhitespaceFilter preserve_elems noescape_elems stream).
Proof.
  intros Hstream. apply Forall_forall. intros ev Hin Hkind.
  assert (Hkept : ev ∈ filter (λ ev, kind ev ≠ TEXT)
                    (WhitespaceFilter preserve_elems noescape_elems stream)).
  { apply list_elem_of_filter. split; [by rewrite Hkind|done]. }
  unfold WhitespaceFilter in Hkept.
  destruct (whitespace_loop_keeps_others preserve_elems noescape_elems stream 0 false [])
    as [Hothers _].
  rewrite Hothers in Hkept. apply list_elem_of_filter in Hkept as [_ Hstream'].
  by apply (proj1 (Forall_forall _ _) Hstream ev).
Qed.

Lemma NamespaceStripper_no_doctype (ns : option string) (stream : list (Event QName)) :
  Forall (λ ev, kind ev ≠ DOCTYPE) stream →
  Forall (λ ev, kind ev ≠ DOCTYPE) (NamespaceStripper ns stream).
Proof.
  induction 1 as [|ev rest Hev _ IH]; [done|].
  rewrite NamespaceStripper_cons. apply Forall_app. split; [|done].
  destruct ev; try done; cbn [strip_event];
    try (destruct (truthy_str _ && negb _)); by repeat constructor.
Qed.



(** X24: without a doctype configured, [HTMLSerializer] returns on every
    stream that has no [DOCTYPE] event: neither unbalanced tags nor names in
    namespaces that nothing declares make it fail. *)
Theorem html_no_doctype_no_failure (strip_whitespace : bool)
    (stream : list (Event QName)) :
  Forall (λ ev, kind ev ≠ DOCTYPE) stream →
  (HTMLSerializer None strip_whitespace stream).2 = Returned.
Proof.
  intros Hstream. unfold HTMLSerializer, preamble. cbn [app].
  apply html_loop_no_doctype, NamespaceStripper_no_doctype.
  assert (Hempty : Forall (λ ev, kind ev ≠ DOCTYPE) (EmptyTagFilter stream)).
  { by apply EmptyTagFilter_loop_no_doctype. }
  destruct strip_whitespace; [|done].
  by apply WhitespaceFilter_no_doctype.
Qed.

Lemma html_no_doctype_no_failure_witness :
  (HTMLSerializer None true
     [End (mkQName (Some "NS") "a") nowhere; Start (mkQName None "b") [] nowhere]).2
  = Returned.
Proof.
  apply (html_no_doctype_no_failure true
           [End (mkQName (Some "NS") "a") nowhere; Start (mkQName None "b") [] nowhere]).
  by repeat constructor.
Defined.

(** ** Failures in a pipeline *)

(** A stage that fails on an item of its own accord does so before the
    upstream is asked for the next one: of a [DOCTYPE] that cannot be
    rendered and an [END] in a namespace without a binding behind it, the
    serializer's [TypeError] is what comes out, not the flattener's
    [KeyError]. *)
Lemma xml_serializer_fails_first :
  NamespaceFlattener None
    [Doctype None (Some "p") None nowhere; End (mkQName (Some "NS") "a") nowhere]
  = ([Doctype None (Some "p") None nowhere], Raised KeyError)
  ∧ XMLSerializer None true None
      [Doctype None (Some "p") None nowhere; End (mkQName (Some "NS") "a") nowhere]
    = ([], Raised TypeError).
Proof. split; by vm_compute. Qed.
